(** * A shallow embedding of the tcpp preprocessor (tcppLibrary.hpp)

    The model follows the implementation in [source/tcppLibrary.hpp]
    (the first library of the header: [Lexer], [StringInputStream] and
    [Preprocessor]).  Every C++ function is translated into a Rocq function
    of the same name; member state becomes explicit records threaded through
    a small state-and-fault monad.  Behaviours the C++ standard leaves
    undefined (reading [front()]/[back()]/[top()] of an empty container,
    integer division by zero, signed overflow) are reported as the fault
    [UndefinedBehaviour]; [std::terminate] (an exception escaping a
    [noexcept] function) as [Terminated]; a failing [assert] as
    [AssertionFailed].  Loops of the source that are not structurally
    bounded take a [fuel] argument and report [OutOfFuel] when it runs out,
    so a computation that returns [OutOfFuel] for every fuel diverges. *)

From Stdlib Require Import String Ascii List ZArith Lia Bool Arith DecimalString.
Import ListNotations.

Module Tcpp.

Open Scope bool_scope.
Open Scope string_scope.

(** ** Characters and strings *)

Definition chr (n : nat) : ascii := Ascii.ascii_of_nat n.

Definition ch_nl : ascii := chr 10.
Definition ch_tab : ascii := chr 9.
Definition ch_cr : ascii := chr 13.
Definition ch_space : ascii := chr 32.
Definition ch_quote : ascii := chr 34.
Definition ch_hash : ascii := chr 35.
Definition ch_backslash : ascii := chr 92.
Definition ch_zero : ascii := chr 48.
Definition ch_x : ascii := chr 120.
Definition ch_under : ascii := chr 95.

(** The classification functions of <cctype> in the "C" locale.  Bytes
    above 127 belong to none of the classes (as in glibc's tables). *)
Definition isspace (c : ascii) : bool :=
  let n := nat_of_ascii c in Nat.eqb n 32 || (Nat.leb 9 n && Nat.leb n 13).
Definition isdigit (c : ascii) : bool :=
  let n := nat_of_ascii c in Nat.leb 48 n && Nat.leb n 57.
Definition isupper (c : ascii) : bool :=
  let n := nat_of_ascii c in Nat.leb 65 n && Nat.leb n 90.
Definition islower (c : ascii) : bool :=
  let n := nat_of_ascii c in Nat.leb 97 n && Nat.leb n 122.
Definition isalpha (c : ascii) : bool := isupper c || islower c.
Definition isalnum (c : ascii) : bool := isalpha c || isdigit c.

Definition str1 (c : ascii) : string := String c EmptyString.

Definition is_empty (s : string) : bool :=
  match s with EmptyString => true | _ => false end.

(** [s.erase(0, n)] *)
Definition erase_front (n : nat) (s : string) : string := substring n (String.length s - n) s.

(** [s.rfind(p, 0) == 0]: [p] occurs at index 0. *)
Definition starts_with (p s : string) : bool := String.prefix p s.

(** [s.rfind(p, 1) == 1]: [p] occurs at index 1. *)
Definition occurs_at1 (p s : string) : bool :=
  match s with
  | EmptyString => false
  | String _ r => String.prefix p r
  end.

(** [s.find(p)] *)
Fixpoint find_str_from (p s : string) (i : nat) : option nat :=
  if String.prefix p s then Some i else
  match s with
  | EmptyString => None
  | String _ r => find_str_from p r (S i)
  end.
Definition find_str (p s : string) : option nat := find_str_from p s 0.

(** [s.find_first_of(c)] for a single character [c]. *)
Fixpoint find_char (c : ascii) (s : string) : option nat :=
  match s with
  | EmptyString => None
  | String d r => if Ascii.eqb c d then Some 0 else option_map S (find_char c r)
  end.

(** the longest prefix of [s] all of whose characters satisfy [p] *)
Fixpoint take_while (p : ascii -> bool) (s : string) : string :=
  match s with
  | EmptyString => EmptyString
  | String c r => if p c then String c (take_while p r) else EmptyString
  end.

(** [std::string::back()] on a non-empty string *)
Fixpoint last_char (s : string) : option ascii :=
  match s with
  | EmptyString => None
  | String c EmptyString => Some c
  | String _ r => last_char r
  end.

Fixpoint concat_strings (l : list string) : string :=
  match l with [] => EmptyString | s :: r => s ++ concat_strings r end.

(** ** Tokens *)

Inductive E_TOKEN_TYPE :=
| IDENTIFIER | DEFINE | IF | ELSE | ELIF | UNDEF | ENDIF | INCLUDE | DEFINED
| IFNDEF | IFDEF | SPACE | BLOB | OPEN_BRACKET | CLOSE_BRACKET | COMMA
| NEWLINE | LESS | GREATER | QUOTES | KEYWORD | END | REJECT_MACRO
| STRINGIZE_OP | CONCAT_OP | NUMBER | PLUS | MINUS | SLASH | STAR | OR | AND
| AMPERSAND | VLINE | LSHIFT | RSHIFT | NOT | GE | LE | EQ | NE
| CUSTOM_DIRECTIVE | UNKNOWN.

Scheme Equality for E_TOKEN_TYPE.

Definition ttype_eqb := E_TOKEN_TYPE_beq.

(** [struct TToken]; a token built from an initialiser list that leaves
    out fields has them value-initialised to zero. *)
Record TToken := mkToken {
  mType : E_TOKEN_TYPE;
  mRawView : string;
  mLineId : nat;
  mPos : nat
}.

Definition tok2 (t : E_TOKEN_TYPE) (s : string) : TToken := mkToken t s 0 0.

(** [Lexer::mEOFToken = { E_TOKEN_TYPE::END }] *)
Definition mEOFToken : TToken := mkToken END EmptyString 0 0.

(** ** The state-and-fault monad *)

Inductive fault := UndefinedBehaviour | Terminated | AssertionFailed | OutOfFuel.

Inductive res (S A : Type) : Type :=
| Ok (a : A) (s : S)
| Fault (f : fault).
Arguments Ok {S A} a s.
Arguments Fault {S A} f.

Definition M (S A : Type) : Type := S -> res S A.

Definition ret {S A} (a : A) : M S A := fun s => Ok a s.
Definition bind {S A B} (m : M S A) (k : A -> M S B) : M S B :=
  fun s => match m s with Ok a s' => k a s' | Fault f => Fault f end.
Definition get {S} : M S S := fun s => Ok s s.
Definition put {S} (s : S) : M S unit := fun _ => Ok tt s.
Definition modify {S} (f : S -> S) : M S unit := fun s => Ok tt (f s).
Definition fail {S A} (f : fault) : M S A := fun _ => Fault f.

Notation "x <- m ;; k" := (bind m (fun x => k))
  (at level 61, m at next level, right associativity).
Notation "m ;;; k" := (bind m (fun _ => k))
  (at level 61, right associativity).

(** ** [StringInputStream] *)

(** [ReadLine]: the prefix up to and including the first newline (the
    whole string if there is none); the stream keeps the rest. *)
Fixpoint ReadLine (s : string) : string * string :=
  match s with
  | EmptyString => (EmptyString, EmptyString)
  | String c r =>
      if Ascii.eqb c ch_nl then (str1 c, r)
      else let (l, rest) := ReadLine r in (String c l, rest)
  end.

Definition HasNextLine (s : string) : bool := negb (is_empty s).

(** ** [Lexer] *)

Record Lexer := mkLexer {
  mTokensQueue : list TToken;
  mCurrLine : string;
  mCurrLineIndex : nat;
  mCurrPos : nat;
  mStreamsContext : list string;        (** the head is the top of the stack *)
  mCustomDirectivesMap : list string
}.

Definition set_queue (q : list TToken) (l : Lexer) : Lexer :=
  mkLexer q (mCurrLine l) (mCurrLineIndex l) (mCurrPos l) (mStreamsContext l) (mCustomDirectivesMap l).
Definition set_currline (s : string) (l : Lexer) : Lexer :=
  mkLexer (mTokensQueue l) s (mCurrLineIndex l) (mCurrPos l) (mStreamsContext l) (mCustomDirectivesMap l).
Definition set_lineidx (n : nat) (l : Lexer) : Lexer :=
  mkLexer (mTokensQueue l) (mCurrLine l) n (mCurrPos l) (mStreamsContext l) (mCustomDirectivesMap l).
Definition set_pos (n : nat) (l : Lexer) : Lexer :=
  mkLexer (mTokensQueue l) (mCurrLine l) (mCurrLineIndex l) n (mStreamsContext l) (mCustomDirectivesMap l).
Definition set_streams (ss : list string) (l : Lexer) : Lexer :=
  mkLexer (mTokensQueue l) (mCurrLine l) (mCurrLineIndex l) (mCurrPos l) ss (mCustomDirectivesMap l).

(** [Lexer::Lexer(IInputStream&)]: the input stream is pushed. *)
Definition Lexer_new (input : string) (customs : list string) : Lexer :=
  mkLexer [] EmptyString 0 0 [input] customs.

Definition mDirectivesTable : list (string * E_TOKEN_TYPE) :=
  [ ("define", DEFINE); ("ifdef", IFDEF); ("ifndef", IFNDEF); ("if", IF);
    ("else", ELSE); ("elif", ELIF); ("undef", UNDEF); ("endif", ENDIF);
    ("include", INCLUDE); ("defined", DEFINED) ]%string.

Definition keywordsMap : list string :=
  [ "auto"; "double"; "int"; "struct"; "break"; "else"; "long"; "switch";
    "case"; "enum"; "register"; "typedef"; "char"; "extern"; "return"; "union";
    "const"; "float"; "short"; "unsigned"; "continue"; "for"; "signed"; "void";
    "default"; "goto"; "sizeof"; "volatile"; "do"; "if"; "static"; "while" ]%string.

(** the separator characters: comma, brackets, angle brackets, the
    double quote and the operator characters *)
Definition separators : string := ",()<>" ++ String ch_quote "+-*/&|!=".

Definition is_separator (c : ascii) : bool :=
  match find_char c separators with Some _ => true | None => false end.

Definition PushStream (s : string) (l : Lexer) : Lexer :=
  set_streams (s :: mStreamsContext l) l.

Definition PopStream (l : Lexer) : Lexer :=
  match mStreamsContext l with
  | [] => l
  | _ :: r => set_streams r l
  end.

Definition AppendFront (toks : list TToken) (l : Lexer) : Lexer :=
  set_queue (app toks (mTokensQueue l)) l.

Definition GetCurrLineIndex (l : Lexer) : nat := mCurrLineIndex l.

Definition HasNextToken (l : Lexer) : bool :=
  match mStreamsContext l with s :: _ => HasNextLine s | [] => false end
  || negb (is_empty (mCurrLine l))
  || negb (match mTokensQueue l with [] => true | _ => false end).

Definition _removeSingleLineComment (line : string) : string :=
  match find_str "//" line with
  | None => line
  | Some pos => substring 0 pos line
  end.

(** the backslash loop of [_requestSourceLine]: every iteration either
    reads one more line of the stream or erases the tail of the line *)
Fixpoint join_lines (fuel : nat) (sourceLine stream : string) (idx : nat)
  : option (string * string * nat) :=
  match fuel with
  | 0 => None
  | S f =>
      match find_char ch_backslash sourceLine with
      | None => Some (sourceLine, stream, idx)
      | Some pos =>
          if HasNextLine stream then
            let (nl, rest) := ReadLine stream in
            join_lines f (substring 0 (Nat.pred pos) sourceLine ++ _removeSingleLineComment nl)
              rest (S idx)
          else join_lines f (substring 0 pos sourceLine) stream idx
      end
  end.

(** "remove redundant whitespaces": a blank (space or tab) that follows a
    blank is dropped *)
Fixpoint collapse_ws (isPrevChWhitespace : bool) (s : string) : string :=
  match s with
  | EmptyString => EmptyString
  | String c r =>
      let w := Ascii.eqb c ch_space || Ascii.eqb c ch_tab in
      if w && isPrevChWhitespace then collapse_ws w r else String c (collapse_ws w r)
  end.

(** [_requestSourceLine]; [_getActiveStream()] is [nullptr] on an empty
    stack and is dereferenced unconditionally. *)
Definition _requestSourceLine : M Lexer string := fun l =>
  match mStreamsContext l with
  | [] => Fault UndefinedBehaviour
  | s :: rest =>
      if negb (HasNextLine s) then Ok EmptyString l else
      let (line, s1) := ReadLine s in
      match join_lines (S (S (String.length s1))) (_removeSingleLineComment line) s1
              (S (mCurrLineIndex l)) with
      | None => Fault OutOfFuel
      | Some (sl, s2, idx) =>
          Ok (collapse_ws false sl) (set_lineidx idx (set_streams (s2 :: rest) l))
      end
  end.

(** [enterCommentBlock] of [_removeMultiLineComments]: it erases the
    opening [/*], then characters up to the matching [*/], entering
    nested blocks and requesting new source lines when the buffer runs
    empty. *)
Fixpoint enterCommentBlock (fuel : nat) (input : string) : M Lexer string :=
  match fuel with
  | 0 => fail OutOfFuel
  | S f =>
      let fix loop (g : nat) (input : string) : M Lexer string :=
        match g with
        | 0 => fail OutOfFuel
        | S g' =>
            if negb (starts_with "*/" input) && negb (is_empty input) then
              let input := erase_front 1 input in
              input <- (if starts_with "/*" input then enterCommentBlock f input else ret input) ;;
              input <- (if is_empty input then _requestSourceLine else ret input) ;;
              loop g' input
            else ret (erase_front 2 input)
        end
      in loop f (erase_front 2 input)
  end.

Definition _removeMultiLineComments (fuel : nat) (currInput : string) : M Lexer string :=
  match find_str "/*" currInput with
  | Some pos =>
      rest <- enterCommentBlock fuel (substring pos (String.length currInput - pos) currInput) ;;
      ret (substring 0 pos currInput ++ rest)
  | None => ret currInput
  end.

Fixpoint sum_lengths (l : list string) : nat :=
  match l with [] => 0 | s :: r => String.length s + sum_lengths r end.

(** every iteration of the comment loops consumes a character or a line *)
Definition comment_fuel (l : Lexer) : nat :=
  2 + 2 * (String.length (mCurrLine l) + sum_lengths (mStreamsContext l)).

(** [_scanSeparatorTokens(ch, inputLine)]: [ch] has been erased already;
    a second character is consumed for the two-character operators. *)
Definition _scanSeparatorTokens (ch : ascii) (inputLine : string) (idx pos : nat)
  : TToken * string * nat :=
  let one t raw := (mkToken t raw idx pos, inputLine, pos) in
  let pair (c : ascii) (t2 : E_TOKEN_TYPE) (raw2 : string) (t1 : E_TOKEN_TYPE) (raw1 : string) :=
    match inputLine with
    | String nextCh r =>
        if Ascii.eqb nextCh c then (mkToken t2 raw2 idx (S pos), r, S pos) else one t1 raw1
    | EmptyString => one t1 raw1
    end in
  if Ascii.eqb ch ","%char then one COMMA ","
  else if Ascii.eqb ch "("%char then one OPEN_BRACKET "("
  else if Ascii.eqb ch ")"%char then one CLOSE_BRACKET ")"
  else if Ascii.eqb ch "<"%char then
    match inputLine with
    | String nextCh r =>
        if Ascii.eqb nextCh "<"%char then (mkToken LSHIFT "<<" idx (S pos), r, S pos)
        else if Ascii.eqb nextCh "="%char then (mkToken LE "<=" idx (S pos), r, S pos)
        else one LESS "<"
    | EmptyString => one LESS "<"
    end
  else if Ascii.eqb ch ">"%char then
    match inputLine with
    | String nextCh r =>
        if Ascii.eqb nextCh ">"%char then (mkToken RSHIFT ">>" idx (S pos), r, S pos)
        else if Ascii.eqb nextCh "="%char then (mkToken GE ">=" idx (S pos), r, S pos)
        else one GREATER ">"
    | EmptyString => one GREATER ">"
    end
  else if Ascii.eqb ch ch_quote then one QUOTES (str1 ch_quote)
  else if Ascii.eqb ch "+"%char then one PLUS "+"
  else if Ascii.eqb ch "-"%char then one MINUS "-"
  else if Ascii.eqb ch "*"%char then one STAR "*"
  else if Ascii.eqb ch "/"%char then one SLASH "/"
  else if Ascii.eqb ch "&"%char then pair "&"%char AND "&&" AMPERSAND "&"
  else if Ascii.eqb ch "|"%char then pair "|"%char OR "||" VLINE "|"
  else if Ascii.eqb ch "!"%char then pair "="%char NE "!=" NOT "!"
  else if Ascii.eqb ch "="%char then pair "="%char EQ "==" BLOB "="
  else (mEOFToken, inputLine, pos).

Fixpoint match_directive (tbl : list (string * E_TOKEN_TYPE)) (line : string)
  : option (string * E_TOKEN_TYPE) :=
  match tbl with
  | [] => None
  | (d, t) :: r => if occurs_at1 d line then Some (d, t) else match_directive r line
  end.

Fixpoint match_custom (cs : list string) (line : string) : option string :=
  match cs with
  | [] => None
  | d :: r => if occurs_at1 d line then Some d else match_custom r line
  end.

Definition is_keyword (s : string) : bool := existsb (String.eqb s) keywordsMap.

(** What one run of the [while (!inputLine.empty())] loop of [_scanTokens]
    ends with: a token (with the rest of the line, the position and a
    token pushed on the front of the queue), or an exhausted line. *)
Inductive scan_out :=
| ScanTok (t : TToken) (line : string) (pos : nat) (queued : option TToken)
| ScanExhausted (pos : nat)
| ScanUB.

(** the digit loop of the number case; [charsToRemove] is a [uint8_t] *)
Definition scan_digits (number line : string) (idx pos : nat) : scan_out :=
  let ds := take_while isdigit line in
  let k := String.length ds mod 256 in
  ScanTok (mkToken NUMBER (number ++ ds) idx (pos + k)) (erase_front k line) (pos + k) None.

Definition is_ident_char (c : ascii) : bool := isalnum c || Ascii.eqb c ch_under.

Fixpoint scan_loop (customs : list string) (idx : nat) (currStr line : string) (pos : nat)
  : scan_out :=
  match line with
  | EmptyString =>
      if is_empty currStr then ScanExhausted pos
      else ScanTok (mkToken BLOB currStr idx pos) line pos None
  | String ch rest =>
      let flush p := ScanTok (mkToken BLOB currStr idx p) line pos None in
      if Ascii.eqb ch ch_nl then
        if negb (is_empty currStr) then flush 0
        else ScanTok (mkToken NEWLINE (str1 ch_nl) idx (S pos)) rest (S pos) None
      else if isspace ch then
        if negb (is_empty currStr) then flush pos
        else ScanTok (mkToken SPACE " " idx (S pos)) rest (S pos) None
      else if Ascii.eqb ch ch_hash then
        if negb (is_empty currStr) then flush pos else
        match match_directive mDirectivesTable line with
        | Some (d, t) =>
            let n := S (String.length d) in
            ScanTok (mkToken t EmptyString idx (pos + n)) (erase_front n line) (pos + n) None
        | None =>
            match match_custom customs line with
            | Some d =>
                let n := S (String.length d) in
                ScanTok (mkToken CUSTOM_DIRECTIVE d idx (pos + n)) (erase_front n line) (pos + n) None
            | None =>
                match rest with
                | String nextCh rest' =>
                    if Ascii.eqb nextCh ch_hash then
                      ScanTok (mkToken CONCAT_OP EmptyString idx (S pos)) rest' (S pos) None
                    else if negb (Ascii.eqb nextCh ch_space) then
                      ScanTok (mkToken STRINGIZE_OP EmptyString idx pos) rest pos None
                    else ScanTok (mkToken BLOB "#" idx pos) rest pos None
                | EmptyString =>
                    (* a trailing '#' falls through the remaining cases: the
                       empty line is erased once more, the position advances
                       and '#' is accumulated into the blob *)
                    scan_loop customs idx (currStr ++ str1 ch) rest (S pos)
                end
            end
        end
      else if isdigit ch then
        if negb (is_empty currStr) then flush pos else
        if Ascii.eqb ch ch_zero then
          match rest with
          | EmptyString => ScanUB          (* inputLine.front() on an empty string *)
          | String nextCh rest1 =>
              if Ascii.eqb nextCh ch_x || isdigit nextCh then
                scan_digits (String ch (str1 nextCh)) rest1 idx (S (S pos))
              else ScanTok (mkToken NUMBER (str1 ch) idx (S pos)) rest (S pos) None
          end
        else scan_digits EmptyString line idx pos
      else if Ascii.eqb ch ch_under || isalpha ch then
        if negb (is_empty currStr) then flush 0 else
        let ident := String ch (take_while is_ident_char rest) in
        let n := String.length ident in
        ScanTok (mkToken (if is_keyword ident then KEYWORD else IDENTIFIER) ident idx (pos + n))
          (erase_front n line) (pos + n) None
      else
        let pos1 := S pos in
        if is_separator ch then
          let '(sep, rest', pos2) := _scanSeparatorTokens ch rest idx pos1 in
          if negb (is_empty currStr) then
            ScanTok (mkToken BLOB currStr idx pos2) rest' pos2
              (if ttype_eqb (mType sep) END then None else Some sep)
          else if negb (ttype_eqb (mType sep) END) then ScanTok sep rest' pos2 None
          else scan_loop customs idx (currStr ++ str1 ch) rest pos1
        else scan_loop customs idx (currStr ++ str1 ch) rest pos1
  end.

(** [_scanTokens(mCurrLine)]; when the line runs out without a token the
    stream is popped and, if one is left, [GetNextToken] is called again
    (the continuation [k]). *)
Definition _scanTokens (k : M Lexer TToken) : M Lexer TToken := fun l =>
  match scan_loop (mCustomDirectivesMap l) (mCurrLineIndex l) EmptyString (mCurrLine l) (mCurrPos l) with
  | ScanUB => Fault UndefinedBehaviour
  | ScanTok t line pos q =>
      let l1 := set_pos pos (set_currline line l) in
      Ok t (match q with Some s => set_queue (s :: mTokensQueue l1) l1 | None => l1 end)
  | ScanExhausted pos =>
      let l1 := PopStream (set_pos pos (set_currline EmptyString l)) in
      match mStreamsContext l1 with
      | [] => Ok mEOFToken l1
      | _ => k l1
      end
  end.

(** [GetNextToken]; the recursion through [_scanTokens] pops a stream each
    time, so its depth is bounded by the height of the stream stack. *)
Fixpoint GetNextToken_aux (depth : nat) : M Lexer TToken := fun l =>
  match mTokensQueue l with
  | t :: q => Ok t (set_queue q l)
  | [] =>
      (eof <- (if is_empty (mCurrLine l) then
                 line <- _requestSourceLine ;;
                 modify (set_currline line) ;;;
                 ret (is_empty line)
               else ret false) ;;
       if eof then ret mEOFToken else
       l' <- get ;;
       line <- _removeMultiLineComments (comment_fuel l') (mCurrLine l') ;;
       modify (set_currline line) ;;;
       _scanTokens (match depth with 0 => fail OutOfFuel | S d => GetNextToken_aux d end)) l
  end.

Definition GetNextToken : M Lexer TToken := fun l =>
  GetNextToken_aux (List.length (mStreamsContext l)) l.

(** lexing a whole input, for testing the scanner *)
Fixpoint lex_all (fuel : nat) (l : Lexer) : list TToken :=
  match fuel with
  | 0 => []
  | S f =>
      if HasNextToken l then
        match GetNextToken l with
        | Ok t l' => t :: lex_all f l'
        | Fault _ => []
        end
      else []
  end.

(** ** [Preprocessor]: data *)

Record TMacroDesc := mkMacro {
  mName : string;
  mArgsNames : list string;
  mValue : list TToken
}.

Inductive E_ERROR_TYPE :=
| UNEXPECTED_TOKEN | UNBALANCED_ENDIF | INVALID_MACRO_DEFINITION
| MACRO_ALREADY_DEFINED | INCONSISTENT_MACRO_ARITY | UNDEFINED_MACRO
| INVALID_INCLUDE_DIRECTIVE | UNEXPECTED_END_OF_INCLUDE_PATH
| ANOTHER_ELSE_BLOCK_FOUND | ELIF_BLOCK_AFTER_ELSE_FOUND | UNDEFINED_DIRECTIVE.

(** [struct TErrorInfo] (its [mType] is renamed, the name being taken by
    [TToken]) *)
Record TErrorInfo := mkError { mErrorType : E_ERROR_TYPE; mLine : nat }.

(** [struct TIfStackEntry] *)
Record TIfStackEntry := mkIfEntry {
  mShouldBeSkipped : bool;
  mHasElseBeenFound : bool
}.

(** The members of [Preprocessor].  The error callback is observed through
    the list of records it received.  The include callback is a
    [std::function] that may be empty ([None]); it maps a path and the
    system flag to the contents of a new [StringInputStream], or to no
    stream.  A custom directive handler is modelled as a function of the
    output built so far.  [mSystemMacrosTableInit] records whether the
    function-local [static] table of built-in macros of
    [_expandMacroDefinition] has been constructed. *)
Record Preprocessor := mkPreprocessor {
  mpLexer : Lexer;
  mErrorLog : list TErrorInfo;
  mOnIncludeCallback : option (string -> bool -> option string);
  mSymTable : list TMacroDesc;
  mContextStack : list string;
  mConditionalBlocksStack : list TIfStackEntry;     (** the head is the top *)
  mCustomDirectivesHandlersMap : list (string * (string -> string));
  mSystemMacrosTableInit : bool
}.

Definition set_lexer (x : Lexer) (p : Preprocessor) : Preprocessor :=
  mkPreprocessor x (mErrorLog p) (mOnIncludeCallback p) (mSymTable p) (mContextStack p)
    (mConditionalBlocksStack p) (mCustomDirectivesHandlersMap p) (mSystemMacrosTableInit p).
Definition set_errors (x : list TErrorInfo) (p : Preprocessor) : Preprocessor :=
  mkPreprocessor (mpLexer p) x (mOnIncludeCallback p) (mSymTable p) (mContextStack p)
    (mConditionalBlocksStack p) (mCustomDirectivesHandlersMap p) (mSystemMacrosTableInit p).
Definition set_symtable (x : list TMacroDesc) (p : Preprocessor) : Preprocessor :=
  mkPreprocessor (mpLexer p) (mErrorLog p) (mOnIncludeCallback p) x (mContextStack p)
    (mConditionalBlocksStack p) (mCustomDirectivesHandlersMap p) (mSystemMacrosTableInit p).
Definition set_context (x : list string) (p : Preprocessor) : Preprocessor :=
  mkPreprocessor (mpLexer p) (mErrorLog p) (mOnIncludeCallback p) (mSymTable p) x
    (mConditionalBlocksStack p) (mCustomDirectivesHandlersMap p) (mSystemMacrosTableInit p).
Definition set_ifstack (x : list TIfStackEntry) (p : Preprocessor) : Preprocessor :=
  mkPreprocessor (mpLexer p) (mErrorLog p) (mOnIncludeCallback p) (mSymTable p) (mContextStack p)
    x (mCustomDirectivesHandlersMap p) (mSystemMacrosTableInit p).
Definition set_sysinit (x : bool) (p : Preprocessor) : Preprocessor :=
  mkPreprocessor (mpLexer p) (mErrorLog p) (mOnIncludeCallback p) (mSymTable p) (mContextStack p)
    (mConditionalBlocksStack p) (mCustomDirectivesHandlersMap p) x.

(** [Preprocessor::Preprocessor]: the table starts with [__LINE__]. *)
Definition Preprocessor_new (lexer : Lexer)
    (onInclude : option (string -> bool -> option string))
    (handlers : list (string * (string -> string))) : Preprocessor :=
  mkPreprocessor lexer [] onInclude [mkMacro "__LINE__" [] []] [] [] handlers false.

Definition PM (A : Type) : Type := M Preprocessor A.

Definition liftL {A} (m : M Lexer A) : PM A := fun p =>
  match m (mpLexer p) with
  | Ok a l => Ok a (set_lexer l p)
  | Fault f => Fault f
  end.

Definition nextToken : PM TToken := liftL GetNextToken.

Definition onError (t : E_ERROR_TYPE) : PM unit := fun p =>
  Ok tt (set_errors (app (mErrorLog p) [mkError t (GetCurrLineIndex (mpLexer p))]) p).

Definition _expect (expectedType actualType : E_TOKEN_TYPE) : PM unit :=
  if ttype_eqb expectedType actualType then ret tt else onError UNEXPECTED_TOKEN.

Definition _shouldTokenBeSkipped : PM bool := fun p =>
  Ok (match mConditionalBlocksStack p with [] => false | e :: _ => mShouldBeSkipped e end) p.

Definition find_macro (name : string) (tbl : list TMacroDesc) : option TMacroDesc :=
  find (fun d => String.eqb (mName d) name) tbl.

Definition is_defined (name : string) (tbl : list TMacroDesc) : bool :=
  existsb (fun d => String.eqb (mName d) name) tbl.

Fixpoint remove_first_macro (name : string) (tbl : list TMacroDesc) : list TMacroDesc :=
  match tbl with
  | [] => []
  | d :: r => if String.eqb (mName d) name then r else d :: remove_first_macro name r
  end.

(** [while ((currToken = GetNextToken()).mType == SPACE);] *)
Fixpoint skip_spaces (fuel : nat) : PM TToken :=
  match fuel with
  | 0 => fail OutOfFuel
  | S f => t <- nextToken ;; if ttype_eqb (mType t) SPACE then skip_spaces f else ret t
  end.

(** [while ((currToken = GetNextToken()).mType != NEWLINE) acc.push_back(currToken);] *)
Fixpoint read_until_newline (fuel : nat) (acc : list TToken) : PM (list TToken * TToken) :=
  match fuel with
  | 0 => fail OutOfFuel
  | S f =>
      t <- nextToken ;;
      if ttype_eqb (mType t) NEWLINE then ret (acc, t) else read_until_newline f (app acc [t])
  end.

(** ** [_evaluateExpression]: the recursive-descent evaluator

    The token vector is the state; [front()] of an empty vector is
    undefined.  Values are C++ [int]s. *)

Definition INT_MIN : Z := -2147483648.
Definition INT_MAX : Z := 2147483647.

Definition EM (A : Type) : Type := M (list TToken) A.

Definition int_res (z : Z) : EM Z :=
  if (INT_MIN <=? z)%Z && (z <=? INT_MAX)%Z then ret z else fail UndefinedBehaviour.

Definition front : EM TToken := fun ts =>
  match ts with t :: _ => Ok t ts | [] => Fault UndefinedBehaviour end.

Definition erase_first : EM unit := fun ts => Ok tt (tl ts).

Fixpoint digits_value (acc : Z) (s : string) : Z :=
  match s with
  | EmptyString => acc
  | String c r => digits_value (10 * acc + Z.of_nat (nat_of_ascii c - 48))%Z r
  end.

(** [std::stoi]: a leading decimal digit sequence; no digits throws
    [invalid_argument], a value beyond [int] throws [out_of_range]; either
    escapes the [noexcept] evaluator. *)
Definition stoi (s : string) : option Z :=
  let ds := take_while isdigit s in
  if is_empty ds then None else
  let v := digits_value 0 ds in
  if (v <=? INT_MAX)%Z then Some v else None.

Definition b2z (b : bool) : Z := if b then 1%Z else 0%Z.

Section Evaluator.
Variable mSymTable_ : list TMacroDesc.

(** [evalCall] is a stub returning 0 *)
Definition evalCall : EM Z := ret 0%Z.

Definition evalPrimary : EM Z :=
  currToken <- front ;;
  match mType currToken with
  | IDENTIFIER =>
      tokens <- get ;;
      match tokens with
      | _ :: t1 :: _ =>
          if ttype_eqb (mType t1) OPEN_BRACKET then evalCall
          else erase_first ;;; ret (b2z (is_defined (mRawView currToken) mSymTable_))
      | _ => erase_first ;;; ret (b2z (is_defined (mRawView currToken) mSymTable_))
      end
  | NUMBER =>
      erase_first ;;;
      match stoi (mRawView currToken) with Some v => ret v | None => fail Terminated end
  | _ => ret 0%Z
  end.

Definition evalUnary : EM Z :=
  result <- evalPrimary ;;
  currToken <- front ;;
  match mType currToken with
  | MINUS => int_res (- result)
  | NOT => ret (b2z (result =? 0)%Z)
  | _ => ret result
  end.

Fixpoint mul_loop (fuel : nat) (result : Z) : EM Z :=
  match fuel with
  | 0 => fail OutOfFuel
  | S f =>
      currToken <- front ;;
      match mType currToken with
      | STAR => r2 <- evalUnary ;; r <- int_res (result * r2) ;; mul_loop f r
      | SLASH =>
          r2 <- evalUnary ;;
          if (r2 =? 0)%Z then fail UndefinedBehaviour
          else r <- int_res (Z.quot result r2) ;; mul_loop f r
      | _ => ret result
      end
  end.

Definition evalMultiplication (fuel : nat) : EM Z :=
  result <- evalUnary ;; mul_loop fuel result.

Fixpoint add_loop (fuel : nat) (result : Z) : EM Z :=
  match fuel with
  | 0 => fail OutOfFuel
  | S f =>
      currToken <- front ;;
      match mType currToken with
      | PLUS => r2 <- evalMultiplication fuel ;; r <- int_res (result + r2) ;; add_loop f r
      | MINUS => r2 <- evalMultiplication fuel ;; r <- int_res (result - r2) ;; add_loop f r
      | _ => ret result
      end
  end.

Definition evalAddition (fuel : nat) : EM Z :=
  result <- evalMultiplication fuel ;; add_loop fuel result.

Fixpoint cmp_loop (fuel : nat) (result : Z) : EM Z :=
  match fuel with
  | 0 => fail OutOfFuel
  | S f =>
      currToken <- front ;;
      match mType currToken with
      | LESS => r2 <- evalAddition fuel ;; cmp_loop f (b2z (result <? r2)%Z)
      | GREATER => r2 <- evalAddition fuel ;; cmp_loop f (b2z (r2 <? result)%Z)
      | LE => r2 <- evalAddition fuel ;; cmp_loop f (b2z (result <=? r2)%Z)
      | GE => r2 <- evalAddition fuel ;; cmp_loop f (b2z (r2 <=? result)%Z)
      | _ => ret result
      end
  end.

Definition evalComparison (fuel : nat) : EM Z :=
  result <- evalAddition fuel ;; cmp_loop fuel result.

Fixpoint eq_loop (fuel : nat) (result : Z) : EM Z :=
  match fuel with
  | 0 => fail OutOfFuel
  | S f =>
      currToken <- front ;;
      match mType currToken with
      | EQ => r2 <- evalComparison fuel ;; eq_loop f (b2z (result =? r2)%Z)
      | NE => r2 <- evalComparison fuel ;; eq_loop f (b2z (negb (result =? r2)%Z))
      | _ => ret result
      end
  end.

Definition evalEquality (fuel : nat) : EM Z :=
  result <- evalComparison fuel ;; eq_loop fuel result.

(** [result = result && evalEquality()]: the right operand is evaluated
    only when [result] is non-zero *)
Fixpoint and_loop (fuel : nat) (result : Z) : EM Z :=
  match fuel with
  | 0 => fail OutOfFuel
  | S f =>
      currToken <- front ;;
      if ttype_eqb (mType currToken) AND then
        if (result =? 0)%Z then and_loop f 0%Z
        else r2 <- evalEquality fuel ;; and_loop f (b2z (negb (r2 =? 0)%Z))
      else ret result
  end.

Definition evalAndExpr (fuel : nat) : EM Z :=
  result <- evalEquality fuel ;; and_loop fuel result.

Fixpoint or_loop (fuel : nat) (result : Z) : EM Z :=
  match fuel with
  | 0 => fail OutOfFuel
  | S f =>
      currToken <- front ;;
      if ttype_eqb (mType currToken) OR then
        if negb (result =? 0)%Z then or_loop f 1%Z
        else r2 <- evalAndExpr fuel ;; or_loop f (b2z (negb (r2 =? 0)%Z))
      else ret result
  end.

Definition evalOrExpr (fuel : nat) : EM Z :=
  result <- evalAndExpr fuel ;; or_loop fuel result.

End Evaluator.

(** [_evaluateExpression(exprTokens)]: an [END] token is appended *)
Definition evaluate_tokens (tbl : list TMacroDesc) (fuel : nat) (exprTokens : list TToken)
  : res (list TToken) Z :=
  evalOrExpr tbl fuel (app exprTokens [mEOFToken]).

Definition _evaluateExpression (fuel : nat) (exprTokens : list TToken) : PM Z := fun p =>
  match evaluate_tokens (mSymTable p) fuel exprTokens with
  | Ok v _ => Ok v p
  | Fault f => Fault f
  end.

(** ** Macro definitions *)

Definition line_token (l : Lexer) : TToken := mkToken NUMBER "1" (GetCurrLineIndex l) 0.

(** [extractValue]: the first non-space token is kept whatever it is, then
    every token up to the next [NEWLINE] *)
Definition extractValue (fuel : nat) : PM (list TToken) :=
  currToken <- skip_spaces fuel ;;
  r <- read_until_newline fuel [currToken] ;;
  let (value, last) := r in
  p <- get ;;
  let value := match value with [] => [line_token (mpLexer p)] | _ => value end in
  _expect NEWLINE (mType last) ;;;
  ret value.

(** the loop over the parameter names of a function-like macro *)
Fixpoint parse_params (fuel : nat) (acc : list string) : PM (list string) :=
  match fuel with
  | 0 => fail OutOfFuel
  | S f =>
      currToken <- skip_spaces fuel ;;
      _expect IDENTIFIER (mType currToken) ;;;
      let acc := app acc [mRawView currToken] in
      currToken <- skip_spaces fuel ;;
      if ttype_eqb (mType currToken) CLOSE_BRACKET then ret acc
      else _expect COMMA (mType currToken) ;;; parse_params f acc
  end.

Definition _createMacroDefinition (fuel : nat) : PM unit :=
  currToken <- nextToken ;;
  _expect SPACE (mType currToken) ;;;
  currToken <- nextToken ;;
  _expect IDENTIFIER (mType currToken) ;;;
  let name := mRawView currToken in
  currToken <- nextToken ;;
  macroDesc <-
    match mType currToken with
    | SPACE => v <- extractValue fuel ;; ret (mkMacro name [] v)
    | NEWLINE => p <- get ;; ret (mkMacro name [] [line_token (mpLexer p)])
    | OPEN_BRACKET =>
        args <- parse_params fuel [] ;;
        v <- extractValue fuel ;;
        ret (mkMacro name args v)
    | _ => onError INVALID_MACRO_DEFINITION ;;; ret (mkMacro name [] [])
    end ;;
  skip <- _shouldTokenBeSkipped ;;
  if skip then ret tt else
  p <- get ;;
  if is_defined name (mSymTable p) then onError MACRO_ALREADY_DEFINED
  else put (set_symtable (app (mSymTable p) [macroDesc]) p).

Definition _removeMacroDefinition (macroName : string) : PM unit :=
  skip <- _shouldTokenBeSkipped ;;
  if skip then ret tt else
  p <- get ;;
  if negb (is_defined macroName (mSymTable p)) then onError UNDEFINED_MACRO else
  put (set_symtable (remove_first_macro macroName (mSymTable p)) p) ;;;
  currToken <- nextToken ;;
  _expect NEWLINE (mType currToken).

(** the inner loop of one argument:
    [while (type != COMMA && type != NEWLINE && type != CLOSE_BRACKET)] *)
Fixpoint collect_arg (fuel : nat) (acc : list TToken) (currToken : TToken)
  : PM (list TToken * TToken) :=
  match fuel with
  | 0 => fail OutOfFuel
  | S f =>
      if ttype_eqb (mType currToken) COMMA || ttype_eqb (mType currToken) NEWLINE
         || ttype_eqb (mType currToken) CLOSE_BRACKET
      then ret (acc, currToken)
      else t <- nextToken ;; collect_arg f (app acc [currToken]) t
  end.

(** the loop reading the arguments of a function-like macro's invocation *)
Fixpoint read_args (fuel : nat) (acc : list (list TToken)) : PM (list (list TToken)) :=
  match fuel with
  | 0 => fail OutOfFuel
  | S f =>
      currToken <- skip_spaces fuel ;;
      let currArgTokens := [currToken] in
      currToken <- skip_spaces fuel ;;
      r <- collect_arg fuel currArgTokens currToken ;;
      let (currArgTokens, currToken) := r in
      (if negb (ttype_eqb (mType currToken) COMMA) && negb (ttype_eqb (mType currToken) CLOSE_BRACKET)
       then _expect COMMA (mType currToken) else ret tt) ;;;
      let acc := app acc [currArgTokens] in
      if ttype_eqb (mType currToken) CLOSE_BRACKET then ret acc else read_args f acc
  end.

Definition replace_arg (currArgName replacementValue : string) (t : TToken) : TToken :=
  if ttype_eqb (mType t) IDENTIFIER && String.eqb (mRawView t) currArgName
  then mkToken (mType t) replacementValue (mLineId t) (mPos t) else t.

(** the substitution loop over [processingTokens]; [argsList[currArgIndex]]
    past the end of the parameter list is undefined ([None]) *)
Fixpoint substitute_args (argsList : list string) (processingTokens : list (list TToken))
    (replacementList : list TToken) : option (list TToken) :=
  match processingTokens with
  | [] => Some replacementList
  | currArgValueTokens :: rest =>
      match argsList with
      | [] => None
      | currArgName :: argsRest =>
          let replacementValue := concat_strings (map mRawView currArgValueTokens) in
          substitute_args argsRest rest (map (replace_arg currArgName replacementValue) replacementList)
      end
  end.

Definition string_of_nat (n : nat) : string := NilEmpty.string_of_uint (Nat.to_uint n).

(** The function-local [static] table of built-in macros is built by the
    first expansion of any object-like macro; its [__LINE__] entry captures
    that call's [idToken] by reference.  The table lives as long as the
    process (it is shared by every [Preprocessor]); an instance is modelled
    here with the flag [mSystemMacrosTableInit].  Calling the entry from a
    later expansion reads a dead object. *)
Definition _expandMacroDefinition (fuel : nat) (macroDesc : TMacroDesc) (idToken : TToken)
  : PM (list TToken) :=
  match mArgsNames macroDesc with
  | [] =>
      p <- get ;;
      let wasInit := mSystemMacrosTableInit p in
      put (set_sysinit true p) ;;;
      if String.eqb (mName macroDesc) "__LINE__" then
        if wasInit then fail UndefinedBehaviour
        else ret [tok2 BLOB (string_of_nat (mLineId idToken))]
      else ret (mValue macroDesc)
  | argsList =>
      modify (fun p => set_context (app (mContextStack p) [mName macroDesc]) p) ;;;
      currToken <- nextToken ;;
      _expect OPEN_BRACKET (mType currToken) ;;;
      processingTokens <- read_args fuel [] ;;
      (if negb (Nat.eqb (length processingTokens) (length argsList))
       then onError INCONSISTENT_MACRO_ARITY else ret tt) ;;;
      match substitute_args argsList processingTokens (mValue macroDesc) with
      | None => fail UndefinedBehaviour
      | Some replacementList => ret (app replacementList [tok2 REJECT_MACRO (mName macroDesc)])
      end
  end.

(** ** Conditionals *)

Definition _processIfConditional (fuel : nat) : PM TIfStackEntry :=
  currToken <- nextToken ;;
  _expect SPACE (mType currToken) ;;;
  r <- read_until_newline fuel [] ;;
  let (expressionTokens, currToken) := r in
  _expect NEWLINE (mType currToken) ;;;
  v <- _evaluateExpression fuel expressionTokens ;;
  ret (mkIfEntry (v =? 0)%Z false).

Definition ifdef_common : PM string :=
  currToken <- nextToken ;;
  _expect SPACE (mType currToken) ;;;
  currToken <- nextToken ;;
  _expect IDENTIFIER (mType currToken) ;;;
  let macroIdentifier := mRawView currToken in
  currToken <- nextToken ;;
  _expect NEWLINE (mType currToken) ;;;
  ret macroIdentifier.

Definition _processIfdefConditional : PM TIfStackEntry :=
  name <- ifdef_common ;;
  p <- get ;;
  ret (mkIfEntry (negb (is_defined name (mSymTable p))) false).

Definition _processIfndefConditional : PM TIfStackEntry :=
  name <- ifdef_common ;;
  p <- get ;;
  ret (mkIfEntry (is_defined name (mSymTable p)) false).

(** The two functions below update the entry passed by reference; here
    they return its new value. *)
Definition _processElseConditional (currStackEntry : TIfStackEntry) : PM TIfStackEntry :=
  if mHasElseBeenFound currStackEntry
  then onError ANOTHER_ELSE_BLOCK_FOUND ;;; ret currStackEntry
  else ret (mkIfEntry (negb (mShouldBeSkipped currStackEntry)) true).

Definition _processElifConditional (fuel : nat) (currStackEntry : TIfStackEntry)
  : PM TIfStackEntry :=
  if mHasElseBeenFound currStackEntry
  then onError ELIF_BLOCK_AFTER_ELSE_FOUND ;;; ret currStackEntry
  else
    currToken <- nextToken ;;
    _expect SPACE (mType currToken) ;;;
    r <- read_until_newline fuel [] ;;
    let (expressionTokens, currToken) := r in
    _expect NEWLINE (mType currToken) ;;;
    v <- _evaluateExpression fuel expressionTokens ;;
    ret (mkIfEntry (v =? 0)%Z (mHasElseBeenFound currStackEntry)).

(** [mConditionalBlocksStack.top()] of an empty stack is undefined *)
Definition update_top (f : TIfStackEntry -> PM TIfStackEntry) : PM unit :=
  p <- get ;;
  match mConditionalBlocksStack p with
  | [] => fail UndefinedBehaviour
  | e :: _ =>
      e' <- f e ;;
      modify (fun p => set_ifstack (e' :: tl (mConditionalBlocksStack p)) p)
  end.

Definition push_entry (m : PM TIfStackEntry) : PM unit :=
  e <- m ;; modify (fun p => set_ifstack (e :: mConditionalBlocksStack p) p).

(** ** [#include] *)

(** [while ((currToken = GetNextToken()).mType == NEWLINE);] *)
Fixpoint skip_newlines (fuel : nat) : PM TToken :=
  match fuel with
  | 0 => fail OutOfFuel
  | S f => t <- nextToken ;; if ttype_eqb (mType t) NEWLINE then skip_newlines f else ret t
  end.

Fixpoint read_include_path (fuel : nat) (path : string) : PM string :=
  match fuel with
  | 0 => fail OutOfFuel
  | S f =>
      currToken <- nextToken ;;
      if ttype_eqb (mType currToken) QUOTES || ttype_eqb (mType currToken) GREATER then ret path
      else if ttype_eqb (mType currToken) NEWLINE
      then onError UNEXPECTED_END_OF_INCLUDE_PATH ;;; ret path
      else read_include_path f (path ++ mRawView currToken)
  end.

(** The part of [_processInclusion] before the callback is called: [None]
    when the directive is rejected, otherwise the path and
    [isSystemPathInclusion]. *)
Definition include_directive (fuel : nat) : PM (option (string * bool)) :=
  currToken <- skip_spaces fuel ;;
  if negb (ttype_eqb (mType currToken) LESS) && negb (ttype_eqb (mType currToken) QUOTES) then
    skip_newlines fuel ;;;
    onError INVALID_INCLUDE_DIRECTIVE ;;;
    ret None
  else
    let isSystemPathInclusion := ttype_eqb (mType currToken) LESS in
    path <- read_include_path fuel EmptyString ;;
    currToken <- skip_spaces fuel ;;
    _expect NEWLINE (mType currToken) ;;;
    ret (Some (path, isSystemPathInclusion)).

Section Assertions.

(** [TCPP_ASSERT] is [assert], active unless [NDEBUG] is defined *)
Variable assertions_enabled : bool.

Definition TCPP_ASSERT (cond : bool) : PM unit :=
  if assertions_enabled && negb cond then fail AssertionFailed else ret tt.

(** The rest of [_processInclusion]: calling an empty [std::function]
    throws [bad_function_call] out of a [noexcept] function. *)
Definition include_resolve (path : string) (isSystemPathInclusion : bool) : PM unit :=
  p <- get ;;
  match mOnIncludeCallback p with
  | None => fail Terminated
  | Some cb =>
      match cb path isSystemPathInclusion with
      | None => TCPP_ASSERT false
      | Some pInputStream => liftL (modify (PushStream pInputStream))
      end
  end.

Definition _processInclusion (fuel : nat) : PM unit :=
  r <- include_directive fuel ;;
  match r with
  | None => ret tt
  | Some (path, sys) => include_resolve path sys
  end.

(** ** [Process] *)

Definition appendString (processedStr str : string) : PM string :=
  skip <- _shouldTokenBeSkipped ;;
  ret (if skip then processedStr else processedStr ++ str).

Definition erase_last (s : string) : string := substring 0 (Nat.pred (String.length s)) s.

Definition lookup_handler (d : string) (m : list (string * (string -> string)))
  : option (string -> string) :=
  match find (fun e => String.eqb (fst e) d) m with Some e => Some (snd e) | None => None end.

(** one iteration of the [switch] of [Process] *)
Definition process_token (fuel : nat) (processedStr : string) (currToken : TToken) : PM string :=
  match mType currToken with
  | DEFINE => _createMacroDefinition fuel ;;; ret processedStr
  | UNDEF =>
      currToken <- nextToken ;;
      _expect IDENTIFIER (mType currToken) ;;;
      _removeMacroDefinition (mRawView currToken) ;;;
      ret processedStr
  | IF => push_entry (_processIfConditional fuel) ;;; ret processedStr
  | IFNDEF => push_entry _processIfndefConditional ;;; ret processedStr
  | IFDEF => push_entry _processIfdefConditional ;;; ret processedStr
  | ELIF => update_top (_processElifConditional fuel) ;;; ret processedStr
  | ELSE => update_top _processElseConditional ;;; ret processedStr
  | ENDIF =>
      p <- get ;;
      match mConditionalBlocksStack p with
      | [] => onError UNBALANCED_ENDIF
      | _ :: r => put (set_ifstack r p)
      end ;;;
      ret processedStr
  | INCLUDE => _processInclusion fuel ;;; ret processedStr
  | IDENTIFIER =>
      p <- get ;;
      match find_macro (mRawView currToken) (mSymTable p) with
      | Some macroDesc =>
          if negb (existsb (String.eqb (mRawView currToken)) (mContextStack p)) then
            toks <- _expandMacroDefinition fuel macroDesc currToken ;;
            liftL (modify (AppendFront toks)) ;;;
            ret processedStr
          else appendString processedStr (mRawView currToken)
      | None => appendString processedStr (mRawView currToken)
      end
  | REJECT_MACRO =>
      modify (fun p => set_context
        (filter (fun item => negb (String.eqb item (mRawView currToken))) (mContextStack p)) p) ;;;
      ret processedStr
  | CONCAT_OP =>
      match last_char processedStr with
      | None => fail UndefinedBehaviour
      | Some c =>
          let processedStr := if Ascii.eqb c ch_space then erase_last processedStr else processedStr in
          currToken <- skip_spaces fuel ;;
          appendString processedStr (mRawView currToken)
      end
  | STRINGIZE_OP =>
      currToken <- nextToken ;;
      appendString processedStr (mRawView currToken)
  | CUSTOM_DIRECTIVE =>
      p <- get ;;
      match lookup_handler (mRawView currToken) (mCustomDirectivesHandlersMap p) with
      | Some handler => appendString processedStr (handler processedStr)
      | None => onError UNDEFINED_DIRECTIVE ;;; ret processedStr
      end
  | _ => appendString processedStr (mRawView currToken)
  end.

Definition hasNextToken : PM bool := fun p => Ok (HasNextToken (mpLexer p)) p.

Fixpoint Process_loop (fuel : nat) (processedStr : string) : PM string :=
  match fuel with
  | 0 => fail OutOfFuel
  | S f =>
      more <- hasNextToken ;;
      if negb more then ret processedStr else
      currToken <- nextToken ;;
      processedStr <- process_token fuel processedStr currToken ;;
      more <- hasNextToken ;;
      (if negb more then liftL (modify PopStream) else ret tt) ;;;
      Process_loop f processedStr
  end.

Definition Process (fuel : nat) : PM string := Process_loop fuel EmptyString.

End Assertions.

(** A preprocessor over the source [src], with the include callback [cb]
    and no custom directive, run with [fuel]. *)
Definition run (assertions_enabled : bool) (fuel : nat) (src : string)
    (cb : option (string -> bool -> option string)) : res Preprocessor string :=
  Process assertions_enabled fuel (Preprocessor_new (Lexer_new src []) cb []).

Definition out (r : res Preprocessor string) : option string :=
  match r with Ok s _ => Some s | Fault _ => None end.

(** ** Inputs and predicates of the statements *)

Definition nl : string := str1 ch_nl.

(** a preprocessor over [src] with no include callback, run with [fuel] *)
Definition run_plain (ab : bool) (fuel : nat) (src : string) : res Preprocessor string :=
  run ab fuel src None.

Definition src_concat_first : string := "##x".

Definition src_stringize : string := "#define FOO(Name) #Name" ++ nl ++ " FOO(Text)".

Definition src_nested_inactive : string :=
  "#if 0" ++ nl ++ "#if 1" ++ nl ++ "y" ++ nl ++ "#endif" ++ nl ++ "#endif".


Definition src_defined_call : string :=
  "#define X" ++ nl ++ "#if defined(X)" ++ nl ++ "yes" ++ nl ++ "#else" ++ nl ++ "no" ++ nl ++ "#endif".

Definition src_division : string := "#if 1/0" ++ nl ++ "yes" ++ nl ++ "#endif".

Definition src_self_macro : string := "#define A A" ++ nl ++ "A".

Definition src_inactive_include : string := "#if 0" ++ nl ++ "#include <a>" ++ nl ++ "#endif" ++ nl.

Definition src_missing_include : string := "#include <b>" ++ nl.

(** an include callback that knows only the file [a], whose contents close
    the enclosing conditional and print [leak] *)
Definition include_only_a : option (string -> bool -> option string) :=
  Some (fun path _ => if String.eqb path "a" then Some ("#endif" ++ nl ++ "leak" ++ nl) else None).

Definition src_two_spaces : string := "a  b".

(** Plain text: newlines and printable ASCII characters other than [#] and
    the backslash, with no two consecutive spaces, no comment opener
    ([//] or [/*]), no occurrence of [__LINE__] and no run of 256 or more
    digits. *)
Definition plain_char (c : ascii) : bool :=
  let n := nat_of_ascii c in
  Nat.eqb n 10
  || (Nat.leb 32 n && Nat.leb n 126 && negb (Ascii.eqb c ch_hash)
      && negb (Ascii.eqb c ch_backslash)).

Fixpoint plain_text (s : string) : bool :=
  match s with
  | EmptyString => true
  | String c r =>
      plain_char c && negb (starts_with "  " s) && negb (starts_with "//" s)
      && negb (starts_with "/*" s) && negb (starts_with "__LINE__" s)
      && Nat.ltb (String.length (take_while isdigit s)) 256
      && plain_text r
  end.

(** a plain text that does not end with the character [0]: a [0] that
    ends the input makes [_scanTokens] read the front of an empty line *)
Definition plain_input (x : string) : bool :=
  plain_text x && negb (match last_char x with Some c => Ascii.eqb c ch_zero | None => false end).

(** tokens that [Process] copies to its output: no directive or operator
    of the preprocessor, and no identifier naming the built-in macro *)
Definition benign (t : TToken) : bool :=
  match mType t with
  | IDENTIFIER => negb (String.eqb (mRawView t) "__LINE__")
  | DEFINE | IF | ELSE | ELIF | UNDEF | ENDIF | INCLUDE | IFNDEF | IFDEF
  | REJECT_MACRO | STRINGIZE_OP | CONCAT_OP | CUSTOM_DIRECTIVE => false
  | _ => true
  end.

Definition good_tok (t : TToken) : bool := benign t && negb (is_empty (mRawView t)).

Definition raws (q : list TToken) : string := concat_strings (map mRawView q).

Definition opt_list {A} (o : option A) : list A :=
  match o with Some a => [a] | None => [] end.

(** ** The remaining members of the interface *)

(** [ErrorTypeToString]; the [return ""] after the [switch] is not
    reachable for a valid enumerator. *)
Definition ErrorTypeToString (errorType : E_ERROR_TYPE) : string :=
  match errorType with
  | UNEXPECTED_TOKEN => "Unexpected token"
  | UNBALANCED_ENDIF => "Unbalanced endif"
  | INVALID_MACRO_DEFINITION => "Invalid macro definition"
  | MACRO_ALREADY_DEFINED => "The macro is already defined"
  | INCONSISTENT_MACRO_ARITY =>
      "Inconsistent number of arguments between definition and invocation of the macro"
  | UNDEFINED_MACRO => "Undefined macro"
  | INVALID_INCLUDE_DIRECTIVE => "Invalid #include directive"
  | UNEXPECTED_END_OF_INCLUDE_PATH => "Unexpected end of include path"
  | ANOTHER_ELSE_BLOCK_FOUND => "#else directive should be last one"
  | ELIF_BLOCK_AFTER_ELSE_FOUND => "#elif found after #else block"
  | UNDEFINED_DIRECTIVE => "Undefined directive"
  end.

(** [Lexer::AddCustomDirective]; [mCustomDirectivesMap] is an
    [unordered_set], whose iteration order the model fixes by inserting
    at the front. *)
Definition AddCustomDirective (directive : string) (l : Lexer) : bool * Lexer :=
  if existsb (String.eqb directive) (mCustomDirectivesMap l) then (false, l)
  else (true, mkLexer (mTokensQueue l) (mCurrLine l) (mCurrLineIndex l) (mCurrPos l)
                (mStreamsContext l) (directive :: mCustomDirectivesMap l)).

Definition set_handlers (x : list (string * (string -> string))) (p : Preprocessor) : Preprocessor :=
  mkPreprocessor (mpLexer p) (mErrorLog p) (mOnIncludeCallback p) (mSymTable p) (mContextStack p)
    (mConditionalBlocksStack p) x (mSystemMacrosTableInit p).

(** [Preprocessor::AddCustomDirectiveHandler]: the lexer is asked only
    when the handler map does not have the directive ([||] short-circuits). *)
Definition AddCustomDirectiveHandler (directive : string) (handler : string -> string)
    (p : Preprocessor) : bool * Preprocessor :=
  match lookup_handler directive (mCustomDirectivesHandlersMap p) with
  | Some _ => (false, p)
  | None =>
      let (added, l) := AddCustomDirective directive (mpLexer p) in
      if added
      then (true, set_handlers ((directive, handler) :: mCustomDirectivesHandlersMap p) (set_lexer l p))
      else (false, set_lexer l p)
  end.

(** ** Invariants of the proofs *)

(** the text the lexer has still to deliver: queued tokens, the rest of the
    current line and the unread streams *)
Definition pending (l : Lexer) : string :=
  raws (mTokensQueue l) ++ mCurrLine l ++ concat_strings (mStreamsContext l).

(** a lexer reading one plain stream *)
Definition lex_inv (l : Lexer) : Prop :=
  exists s, mStreamsContext l = [s] /\ forallb good_tok (mTokensQueue l) = true
    /\ plain_text (pending l) = true /\ last_char (mCurrLine l) <> Some ch_zero
    /\ last_char s <> Some ch_zero.

(** a preprocessor outside any conditional block, with only the built-in
    macro defined, reading one plain stream *)
Definition pp_inv (p : Preprocessor) : Prop :=
  lex_inv (mpLexer p) /\ mConditionalBlocksStack p = [] /\ mSymTable p = [mkMacro "__LINE__" [] []].

(** a computation that changes neither the include callback, nor the
    symbol table, nor the stack of conditional blocks *)
Definition keeps {A} (m : PM A) : Prop :=
  forall p a p', m p = Ok a p' ->
  mOnIncludeCallback p' = mOnIncludeCallback p /\ mSymTable p' = mSymTable p
  /\ mConditionalBlocksStack p' = mConditionalBlocksStack p.

(** the preprocessor inside an inactive [#if 0] block, right after the
    keyword of [#include <a>] *)
Definition pp_at_inactive_include : Preprocessor :=
  mkPreprocessor (Lexer_new (" <a>" ++ nl) []) [] include_only_a [mkMacro "__LINE__" [] []] []
    [mkIfEntry true false] [] false.

(** the state after the path of that directive has been read *)
Definition pp_after_include_path : Preprocessor :=
  match include_directive 10 pp_at_inactive_include with Ok _ p => p | Fault _ => pp_at_inactive_include end.

(** the callback of [include_only_a] *)
Definition only_a (path : string) (sys : bool) : option string :=
  match include_only_a with Some cb => cb path sys | None => None end.

(** no two adjacent characters of a line are both blanks (space or tab) *)
Fixpoint no_double_blank (s : string) : bool :=
  match s with
  | String c (String d _ as r) =>
      negb ((Ascii.eqb c ch_space || Ascii.eqb c ch_tab) && (Ascii.eqb d ch_space || Ascii.eqb d ch_tab))
      && no_double_blank r
  | _ => true
  end.

(** the level of the evaluator whose loop consumes an operator token *)
Definition op_level (t : E_TOKEN_TYPE) : nat :=
  match t with
  | STAR => 1 | PLUS | MINUS => 2 | LESS | GREATER | LE | GE => 3
  | EQ | NE => 4 | AND => 5 | OR => 6 | _ => 7
  end.

Definition in_int (z : Z) : Prop := (INT_MIN <= z <= INT_MAX)%Z.

Definition ok_or_oof {S A} (r : res S A) (a : A) (s : S) : Prop :=
  r = Ok a s \/ r = Fault OutOfFuel.

(** * Proofs *)

(** ** Strings and plain text *)

Lemma str_app_assoc : forall a b c : string, (a ++ b) ++ c = a ++ (b ++ c).
Proof. induction a as [|x a IH]; intros; simpl; [reflexivity|now rewrite IH]. Qed.

Lemma str_app_nil_r : forall a : string, a ++ EmptyString = a.
Proof. induction a as [|x a IH]; simpl; [reflexivity|now rewrite IH]. Qed.

Lemma prefix_app_r : forall p s t, String.prefix p s = true -> String.prefix p (s ++ t) = true.
Proof.
  induction p as [|x p IH]; intros s t H; [destruct (s ++ t); reflexivity|].
  destruct s as [|y s]; simpl in *; [discriminate|].
  destruct (ascii_dec x y); [now apply IH|discriminate].
Qed.

Lemma prefix_app_l : forall p t, String.prefix p (p ++ t) = true.
Proof.
  induction p as [|x p IH]; intros t; [destruct t; reflexivity|].
  simpl. destruct (ascii_dec x x); [apply IH|congruence].
Qed.

Lemma take_while_app_le : forall f s t,
  String.length (take_while f s) <= String.length (take_while f (s ++ t)).
Proof.
  induction s as [|c s IH]; intros t; simpl; [lia|].
  destruct (f c); simpl; [specialize (IH t); lia|lia].
Qed.

Lemma substring_full : forall s, substring 0 (String.length s) s = s.
Proof. induction s as [|c s IH]; simpl; [reflexivity|now rewrite IH]. Qed.

Lemma erase_front_cons : forall n c s, erase_front (S n) (String c s) = erase_front n s.
Proof. reflexivity. Qed.

Lemma erase_front_0 : forall s, erase_front 0 s = s.
Proof. intros s. unfold erase_front. rewrite Nat.sub_0_r. apply substring_full. Qed.

Lemma take_while_split : forall f s,
  s = take_while f s ++ erase_front (String.length (take_while f s)) s.
Proof.
  induction s as [|c s IH]; [reflexivity|].
  simpl. destruct (f c).
  - simpl. rewrite erase_front_cons. now rewrite <- IH.
  - simpl. now rewrite erase_front_0.
Qed.

Lemma last_char_cons : forall c r, r <> EmptyString -> last_char (String c r) = last_char r.
Proof. intros c r H. destruct r; [congruence|reflexivity]. Qed.

Lemma last_char_app : forall a b, b <> EmptyString -> last_char (a ++ b) = last_char b.
Proof.
  induction a as [|c a IH]; intros b H; [reflexivity|].
  change (String c a ++ b) with (String c (a ++ b)).
  rewrite last_char_cons; [now apply IH|]. destruct a; simpl; [exact H|discriminate].
Qed.

Lemma is_empty_true : forall s, is_empty s = true -> s = EmptyString.
Proof. intros [|c s]; simpl; congruence. Qed.

Lemma plain_text_app_r : forall a b, plain_text (a ++ b) = true -> plain_text b = true.
Proof.
  induction a as [|c a IH]; intros b H; [exact H|].
  simpl in H. apply andb_true_iff in H. apply IH. tauto.
Qed.

Lemma negb_prefix_app : forall p s t,
  negb (starts_with p (s ++ t)) = true -> negb (starts_with p s) = true.
Proof.
  unfold starts_with. intros p s t H. destruct (String.prefix p s) eqn:E; [|reflexivity].
  rewrite (prefix_app_r _ _ t E) in H. discriminate.
Qed.

Lemma plain_text_app_l : forall a b, plain_text (a ++ b) = true -> plain_text a = true.
Proof.
  induction a as [|c a IH]; intros b H; [reflexivity|].
  change (String c a ++ b) with (String c (a ++ b)) in H.
  cbn [plain_text] in H |- *. rewrite !andb_true_iff in H |- *.
  destruct H as [[[[[[H1 H2] H3] H4] H5] H6] H7].
  change (String c (a ++ b)) with (String c a ++ b) in H2, H3, H4, H5, H6.
  repeat split.
  - exact H1.
  - exact (negb_prefix_app _ _ _ H2).
  - exact (negb_prefix_app _ _ _ H3).
  - exact (negb_prefix_app _ _ _ H4).
  - exact (negb_prefix_app _ _ _ H5).
  - apply Nat.ltb_lt. apply Nat.ltb_lt in H6.
    pose proof (take_while_app_le isdigit (String c a) b). lia.
  - exact (IH b H7).
Qed.

Lemma plain_digits_bound : forall s, plain_text s = true ->
  String.length (take_while isdigit s) < 256.
Proof.
  intros [|c s] H; simpl; [lia|].
  cbn [plain_text] in H. rewrite !andb_true_iff in H.
  destruct H as [[[[[[H1 H2] H3] H4] H5] H6] H7]. apply Nat.ltb_lt in H6. exact H6.
Qed.

(** character facts, by enumeration of the 256 values *)
Lemma plain_space : forall c, plain_char c = true -> Ascii.eqb c ch_nl = false ->
  isspace c = true -> c = " "%char.
Proof.
  intros c. destruct c as [[] [] [] [] [] [] [] []]; vm_compute; intros; try discriminate; reflexivity.
Qed.

Lemma plain_not_hash : forall c, plain_char c = true -> Ascii.eqb c ch_hash = false.
Proof.
  intros c. destruct c as [[] [] [] [] [] [] [] []]; vm_compute; intros; try discriminate; reflexivity.
Qed.
Lemma sep_scan : forall ch rest idx pos, is_separator ch = true ->
  forall sep rest' pos2, _scanSeparatorTokens ch rest idx pos = (sep, rest', pos2) ->
  String ch rest = mRawView sep ++ rest' /\ good_tok sep = true /\ ttype_eqb (mType sep) END = false.
Proof.
  intros ch rest idx pos H sep rest' pos2 E.
  destruct ch as [[] [] [] [] [] [] [] []]; vm_compute in H; try discriminate H;
  unfold _scanSeparatorTokens in E; cbn in E;
  try (injection E as <- <- <-; repeat split; reflexivity);
  (destruct rest as [|c r]; [injection E as <- <- <-; repeat split; reflexivity|]);
  repeat match type of E with
  | context [Ascii.eqb c ?d] =>
      let Ec := fresh in destruct (Ascii.eqb c d) eqn:Ec;
      [apply Ascii.eqb_eq in Ec; subst c|]
  end;
  cbn in E; injection E as <- <- <-; repeat split; reflexivity.
Qed.

(** ** Scanning a plain line *)

Ltac split_plain H :=
  cbn [plain_text] in H; rewrite !andb_true_iff in H;
  let H1 := fresh "Hc" in let H2 := fresh "Hsp" in let H3 := fresh "Hsl" in
  let H4 := fresh "Hst" in let H5 := fresh "Hli" in let H6 := fresh "Hdg" in
  let H7 := fresh "Hr" in
  destruct H as [[[[[[H1 H2] H3] H4] H5] H6] H7].

Lemma scan_plain : forall customs idx cl cs pos,
  plain_text cl = true ->
  last_char cl <> Some ch_zero ->
  (is_empty cs = false \/ is_empty cl = false) ->
  exists t cl' pos' q, scan_loop customs idx cs cl pos = ScanTok t cl' pos' q /\
    good_tok t = true /\ forallb good_tok (opt_list q) = true /\
    cs ++ cl = mRawView t ++ raws (opt_list q) ++ cl' /\
    exists pre, cl = pre ++ cl'.
Proof.
  intros customs idx cl. induction cl as [|ch rest IH]; intros cs pos Hp Hl Hne.
  - destruct Hne as [Hne|Hne]; [|discriminate].
    exists (mkToken BLOB cs idx pos), EmptyString, pos, None.
    simpl. rewrite Hne. split; [reflexivity|].
    split; [unfold good_tok; simpl; rewrite Hne; reflexivity|]. split; [reflexivity|].
    split; [now rewrite str_app_nil_r|]. exists EmptyString. reflexivity.
  - assert (Hp' := Hp). split_plain Hp'.
    cbn [scan_loop].
    (* a flushed blob keeps the line *)
    assert (Hflush : forall p, is_empty cs = false ->
      exists t cl' pos' q, ScanTok (mkToken BLOB cs idx p) (String ch rest) pos None = ScanTok t cl' pos' q /\
        good_tok t = true /\ forallb good_tok (opt_list q) = true /\
        cs ++ String ch rest = mRawView t ++ raws (opt_list q) ++ cl' /\
        exists pre, String ch rest = pre ++ cl').
    { intros p He. do 4 eexists. split; [reflexivity|]. unfold good_tok; simpl. rewrite He.
      split; [reflexivity|]. split; [reflexivity|]. split; [reflexivity|]. exists EmptyString. reflexivity. }
    destruct (Ascii.eqb ch ch_nl) eqn:Enl.
    { destruct (is_empty cs) eqn:Ecs; simpl negb; cbv iota beta; [|now apply Hflush].
      apply is_empty_true in Ecs. subst cs. apply Ascii.eqb_eq in Enl. subst ch.
      do 4 eexists. split; [reflexivity|]. split; [reflexivity|]. split; [reflexivity|].
      split; [reflexivity|]. exists (str1 ch_nl). reflexivity. }
    destruct (isspace ch) eqn:Esp.
    { destruct (is_empty cs) eqn:Ecs; simpl negb; cbv iota beta; [|now apply Hflush].
      apply is_empty_true in Ecs. subst cs. rewrite (plain_space ch Hc Enl Esp).
      do 4 eexists. split; [reflexivity|]. split; [reflexivity|]. split; [reflexivity|].
      split; [reflexivity|]. exists " ". reflexivity. }
    rewrite (plain_not_hash ch Hc).
    destruct (isdigit ch) eqn:Edg.
    { destruct (is_empty cs) eqn:Ecs; simpl negb; cbv iota beta; [|now apply Hflush].
      apply is_empty_true in Ecs. subst cs.
      destruct (Ascii.eqb ch ch_zero) eqn:Ez.
      - apply Ascii.eqb_eq in Ez. subst ch.
        destruct rest as [|nextCh rest1]; [exfalso; now apply Hl|].
        destruct (Ascii.eqb nextCh ch_x || isdigit nextCh) eqn:Ex.
        + unfold scan_digits.
          assert (Hb : String.length (take_while isdigit rest1) < 256).
          { apply plain_digits_bound. split_plain Hr. exact Hr0. }
          rewrite (Nat.mod_small _ _ Hb).
          do 4 eexists. split; [reflexivity|]. split; [reflexivity|]. split; [reflexivity|].
          split.
          * simpl. f_equal. f_equal. apply take_while_split.
          * exists (String ch_zero (String nextCh (take_while isdigit rest1))).
            simpl. f_equal. f_equal. apply take_while_split.
        + do 4 eexists. split; [reflexivity|]. split; [reflexivity|]. split; [reflexivity|].
          split; [reflexivity|]. exists (str1 ch_zero). reflexivity.
      - unfold scan_digits.
        apply Nat.ltb_lt in Hdg. rewrite (Nat.mod_small _ _ Hdg).
        do 4 eexists. split; [reflexivity|].
        split; [unfold good_tok; cbn [take_while mRawView append]; rewrite Edg; reflexivity|].
        split; [reflexivity|].
        split.
        + pose proof (take_while_split isdigit (String ch rest)) as Hs.
          simpl in Hs |- *. exact Hs.
        + exists (take_while isdigit (String ch rest)). apply take_while_split. }
    destruct (Ascii.eqb ch ch_under || isalpha ch) eqn:Eid.
    { destruct (is_empty cs) eqn:Ecs; simpl negb; cbv iota beta; [|now apply Hflush].
      apply is_empty_true in Ecs. subst cs.
      assert (Hsplit : String ch rest =
        String ch (take_while is_ident_char rest) ++
        erase_front (String.length (String ch (take_while is_ident_char rest))) (String ch rest)).
      { simpl. rewrite erase_front_cons. f_equal. apply take_while_split. }
      do 4 eexists. split; [reflexivity|]. split.
      - unfold good_tok, benign. cbn [mType mRawView].
        destruct (is_keyword (String ch (take_while is_ident_char rest))); [reflexivity|].
        destruct (String.eqb (String ch (take_while is_ident_char rest)) "__LINE__") eqn:EL;
          [|reflexivity].
        apply String.eqb_eq in EL. rewrite Hsplit, EL in Hli. rewrite prefix_app_l in Hli. discriminate.
      - split; [reflexivity|]. split; [exact Hsplit|].
        eexists. exact Hsplit. }
    destruct (is_separator ch) eqn:Esep.
    { destruct (_scanSeparatorTokens ch rest idx (S pos)) as [[sep rest'] pos2] eqn:Es.
      destruct (sep_scan ch rest idx (S pos) Esep sep rest' pos2 Es) as [Hs [Hg Hend]].
      rewrite Hend. simpl negb.
      destruct (is_empty cs) eqn:Ecs; cbv iota beta.
      - apply is_empty_true in Ecs. subst cs.
        do 4 eexists. split; [reflexivity|]. split; [exact Hg|]. split; [reflexivity|].
        split; [exact Hs|]. exists (mRawView sep). exact Hs.
      - do 4 eexists. split; [reflexivity|]. split; [unfold good_tok; simpl; rewrite Ecs; reflexivity|].
        split; [simpl; rewrite Hg; reflexivity|].
        split; [unfold raws; cbn [opt_list map concat_strings]; rewrite str_app_nil_r, <- Hs; reflexivity|].
        exists (mRawView sep). exact Hs. }
    destruct (IH (cs ++ str1 ch) (S pos) Hr) as [t [cl' [pos' [q [E [Hg [Hq [Heq [pre Hpre]]]]]]]]].
    { destruct rest as [|c r]; [discriminate|]. rewrite <- last_char_cons with (c := ch); [exact Hl|discriminate]. }
    { left. destruct cs; reflexivity. }
    do 4 eexists. split; [exact E|]. split; [exact Hg|]. split; [exact Hq|].
    split.
    + rewrite <- Heq, str_app_assoc. reflexivity.
    + exists (String ch pre). simpl. now rewrite Hpre.
Qed.

(** ** Reading plain lines *)

Lemma plain_not_backslash : forall c, plain_char c = true -> Ascii.eqb ch_backslash c = false.
Proof.
  intros c. destruct c as [[] [] [] [] [] [] [] []]; vm_compute; intros; try discriminate; reflexivity.
Qed.

Lemma plain_not_tab : forall c, plain_char c = true -> Ascii.eqb c ch_tab = false.
Proof.
  intros c. destruct c as [[] [] [] [] [] [] [] []]; vm_compute; intros; try discriminate; reflexivity.
Qed.

Lemma plain_find_str : forall p s i, plain_text s = true ->
  (p = "/*" \/ p = "//") -> find_str_from p s i = None.
Proof.
  intros p s. induction s as [|c s IH]; intros i Hp Hpe.
  - destruct Hpe; subst; reflexivity.
  - assert (Hp' := Hp). split_plain Hp'. cbn [find_str_from].
    replace (String.prefix p (String c s)) with false.
    + apply IH; assumption.
    + unfold starts_with in *. destruct Hpe; subst p.
      * destruct (String.prefix "/*" (String c s)); [discriminate Hst|reflexivity].
      * destruct (String.prefix "//" (String c s)); [discriminate Hsl|reflexivity].
Qed.

Lemma plain_find_backslash : forall s, plain_text s = true -> find_char ch_backslash s = None.
Proof.
  induction s as [|c s IH]; intros Hp; [reflexivity|].
  assert (Hp' := Hp). split_plain Hp'. cbn [find_char]. rewrite (plain_not_backslash c Hc), IH; auto.
Qed.

Lemma collapse_ws_plain : forall s b, plain_text s = true ->
  (b = true -> match s with String c _ => (Ascii.eqb c ch_space || Ascii.eqb c ch_tab) = false | EmptyString => True end) ->
  collapse_ws b s = s.
Proof.
  induction s as [|c r IH]; intros b Hp Hb; [reflexivity|].
  assert (Hp' := Hp). split_plain Hp'. simpl.
  destruct ((Ascii.eqb c ch_space || Ascii.eqb c ch_tab) && b) eqn:E.
  - apply andb_true_iff in E. destruct E as [E1 E2]. specialize (Hb E2). congruence.
  - f_equal. apply IH; [exact Hr|]. intros Hw.
    rewrite (plain_not_tab c Hc), orb_false_r in Hw. apply Ascii.eqb_eq in Hw. subst c.
    destruct r as [|c' r']; [exact I|].
    assert (Hr' := Hr). split_plain Hr'. rewrite (plain_not_tab c' Hc0), orb_false_r.
    destruct (Ascii.eqb c' ch_space) eqn:E'; [|reflexivity].
    apply Ascii.eqb_eq in E'. subst c'. destruct r'; cbv in Hsp; discriminate Hsp.
Qed.

Lemma ReadLine_app : forall s, fst (ReadLine s) ++ snd (ReadLine s) = s.
Proof.
  induction s as [|c s IH]; [reflexivity|]. simpl.
  destruct (Ascii.eqb c ch_nl) eqn:E.
  - apply Ascii.eqb_eq in E. subst c. reflexivity.
  - destruct (ReadLine s) as [l r]. simpl in *. now rewrite IH.
Qed.

Lemma ReadLine_nonempty : forall s, s <> EmptyString -> fst (ReadLine s) <> EmptyString.
Proof.
  intros [|c s] H; [congruence|]. simpl. destruct (Ascii.eqb c ch_nl); [discriminate|].
  destruct (ReadLine s); discriminate.
Qed.

Lemma ReadLine_last : forall s, snd (ReadLine s) <> EmptyString -> last_char (fst (ReadLine s)) = Some ch_nl.
Proof.
  induction s as [|c s IH]; intros H; [simpl in H; congruence|]. simpl in *.
  destruct (Ascii.eqb c ch_nl) eqn:E.
  - apply Ascii.eqb_eq in E. subst c. reflexivity.
  - destruct (ReadLine s) as [l r] eqn:Er. simpl in *.
    destruct l as [|c' l']; [|apply IH; exact H].
    exfalso. assert (Hs := ReadLine_app s). rewrite Er in Hs. simpl in Hs. subst r.
    assert (Hne : s <> EmptyString) by (intro; subst s; simpl in H; congruence).
    apply (ReadLine_nonempty s Hne). now rewrite Er.
Qed.

Lemma requestSourceLine_plain : forall q cl idx pos s cd,
  plain_text s = true -> s <> EmptyString ->
  _requestSourceLine (mkLexer q cl idx pos [s] cd) =
  Ok (fst (ReadLine s)) (mkLexer q cl (S idx) pos [snd (ReadLine s)] cd).
Proof.
  intros q cl idx pos s cd Hp Hne. unfold _requestSourceLine. cbn [mStreamsContext].
  replace (HasNextLine s) with true by (destruct s; [congruence|reflexivity]). cbn [negb].
  assert (Hs := ReadLine_app s). destruct (ReadLine s) as [line s1]. cbn [fst snd] in *.
  assert (Hpl : plain_text line = true) by (rewrite <- Hs in Hp; exact (plain_text_app_l _ _ Hp)).
  unfold _removeSingleLineComment, find_str. rewrite (plain_find_str "//" line 0 Hpl (or_intror eq_refl)).
  cbn [join_lines]. rewrite (plain_find_backslash line Hpl).
  rewrite (collapse_ws_plain line false Hpl (fun H => ltac:(discriminate H))).
  reflexivity.
Qed.

Lemma removeMulti_plain : forall fuel cl l, plain_text cl = true ->
  _removeMultiLineComments fuel cl l = Ok cl l.
Proof.
  intros fuel cl l Hp. unfold _removeMultiLineComments, find_str.
  rewrite (plain_find_str "/*" cl 0 Hp (or_introl eq_refl)). reflexivity.
Qed.

Lemma gnt_scan : forall d cl idx pos ss cd, plain_text cl = true -> last_char cl <> Some ch_zero -> cl <> EmptyString ->
  exists t cl' pos' qo, GetNextToken_aux d (mkLexer [] cl idx pos ss cd) = Ok t (mkLexer (opt_list qo) cl' idx pos' ss cd)
    /\ good_tok t = true /\ forallb good_tok (opt_list qo) = true
    /\ cl = mRawView t ++ raws (opt_list qo) ++ cl' /\ exists pre, cl = pre ++ cl'.
Proof.
  intros d cl idx pos ss cd Hp Hl Hne.
  destruct (scan_plain cd idx cl EmptyString pos Hp Hl) as (t & cl' & pos' & qo & Hs & Hg & Hq & He & Hpre).
  { right. destruct cl; [congruence|reflexivity]. }
  exists t, cl', pos', qo. split; [|repeat split; auto].
  destruct d as [|d]; cbn [GetNextToken_aux mTokensQueue mCurrLine];
  replace (is_empty cl) with false by (destruct cl; [congruence|reflexivity]);
  unfold bind, ret, get, modify; cbn beta iota;
  rewrite removeMulti_plain by exact Hp;
  unfold _scanTokens; cbn [mCustomDirectivesMap mCurrLineIndex mCurrLine mCurrPos set_currline];
  rewrite Hs; destruct qo; reflexivity.
Qed.

Lemma last_suffix : forall pre cl z, last_char (pre ++ cl) <> Some z -> last_char cl <> Some z.
Proof.
  intros pre cl z H. destruct cl as [|c r]; [discriminate|]. rewrite <- (last_char_app pre (String c r)) by discriminate. exact H.
Qed.

Lemma gnt_request : forall d idx pos s cd, plain_text s = true -> last_char s <> Some ch_zero -> s <> EmptyString ->
  exists t cl' pos' qo s1, GetNextToken_aux d (mkLexer [] EmptyString idx pos [s] cd)
      = Ok t (mkLexer (opt_list qo) cl' (S idx) pos' [s1] cd)
    /\ good_tok t = true /\ forallb good_tok (opt_list qo) = true
    /\ s = mRawView t ++ raws (opt_list qo) ++ cl' ++ s1
    /\ last_char cl' <> Some ch_zero /\ last_char s1 <> Some ch_zero.
Proof.
  intros d idx pos s cd Hp Hl Hne.
  assert (Hs := ReadLine_app s). assert (Hln := ReadLine_nonempty s Hne). assert (Hlast := ReadLine_last s).
  destruct (ReadLine s) as [line s1] eqn:Er. cbn [fst snd] in *.
  assert (Hpl : plain_text line = true) by (rewrite <- Hs in Hp; exact (plain_text_app_l _ _ Hp)).
  assert (Hll : last_char line <> Some ch_zero).
  { destruct s1 as [|c r].
    - rewrite str_app_nil_r in Hs. congruence.
    - rewrite Hlast by discriminate. discriminate. }
  assert (Hl1 : last_char s1 <> Some ch_zero) by (rewrite <- Hs in Hl; exact (last_suffix _ _ _ Hl)).
  destruct (scan_plain cd (S idx) line EmptyString pos Hpl Hll) as (t & cl' & pos' & qo & Hsc & Hg & Hq & He & pre & Hpre).
  { right. destruct line; [congruence|reflexivity]. }
  exists t, cl', pos', qo, s1. split; [|repeat split; auto].
  - destruct d as [|d]; cbn [GetNextToken_aux mTokensQueue mCurrLine];
    change (is_empty EmptyString) with true; unfold bind at 1 2; cbn iota;
    rewrite requestSourceLine_plain by assumption; rewrite Er; cbn [fst snd];
    unfold bind, ret, get, modify; cbn [set_currline mCurrLine mTokensQueue mCurrLineIndex mCurrPos mStreamsContext mCustomDirectivesMap];
    (replace (is_empty line) with false by (destruct line; [congruence|reflexivity]));
    rewrite removeMulti_plain by exact Hpl;
    unfold _scanTokens; cbn [mCustomDirectivesMap mCurrLineIndex mCurrLine mCurrPos set_currline];
    rewrite Hsc; destruct qo; reflexivity.
  - rewrite <- Hs. cbn in He. rewrite He, !str_app_assoc. reflexivity.
  - rewrite Hpre in Hll. exact (last_suffix _ _ _ Hll).
Qed.

(** ** The lexer on a plain stream *)

Lemma pending_one : forall q cl idx pos s cd,
  pending (mkLexer q cl idx pos [s] cd) = raws q ++ cl ++ s.
Proof. intros. unfold pending. cbn [mTokensQueue mCurrLine mStreamsContext concat_strings]. now rewrite str_app_nil_r. Qed.

Lemma raws_cons : forall t q, raws (t :: q) = mRawView t ++ raws q.
Proof. reflexivity. Qed.

Lemma HasNextToken_cons : forall t q cl idx pos ss cd, HasNextToken (mkLexer (t :: q) cl idx pos ss cd) = true.
Proof. intros. unfold HasNextToken. simpl. now rewrite !orb_true_r. Qed.

Lemma GetNextToken_aux_cons : forall d t q cl idx pos ss cd,
  GetNextToken_aux d (mkLexer (t :: q) cl idx pos ss cd) = Ok t (mkLexer q cl idx pos ss cd).
Proof. intros [|d]; reflexivity. Qed.

Lemma gnt_step : forall l, lex_inv l -> HasNextToken l = true ->
  exists t l', GetNextToken l = Ok t l' /\ good_tok t = true /\ lex_inv l' /\ pending l = mRawView t ++ pending l'.
Proof.
  intros [q cl idx pos ss cd] (s & Hss & Hq & Hp & Hlc & Hls) Hh. cbn [mStreamsContext mTokensQueue mCurrLine] in *. subst ss.
  unfold GetNextToken. cbn [mStreamsContext List.length]. rewrite pending_one in Hp |- *.
  destruct q as [|t q].
  - destruct cl as [|c r].
    + unfold HasNextToken in Hh. cbn in Hh. rewrite !orb_false_r in Hh.
      assert (Hne : s <> EmptyString) by (intro; subst s; discriminate Hh).
      change (raws [] ++ EmptyString ++ s) with s in Hp.
      destruct (gnt_request 1 idx pos s cd Hp Hls Hne) as (t & cl' & pos' & qo & s1 & Hg & Hgt & Hgq & He & Hl1 & Hl2).
      exists t, (mkLexer (opt_list qo) cl' (S idx) pos' [s1] cd). split; [exact Hg|]. split; [exact Hgt|].
      rewrite pending_one. split; [|exact He].
      exists s1. repeat split; auto. rewrite pending_one. rewrite He in Hp. exact (plain_text_app_r _ _ Hp).
    + change (raws [] ++ String c r ++ s) with (String c r ++ s) in Hp.
      assert (Hpc : plain_text (String c r) = true) by exact (plain_text_app_l _ _ Hp).
      destruct (gnt_scan 1 (String c r) idx pos [s] cd Hpc Hlc ltac:(discriminate))
        as (t & cl' & pos' & qo & Hg & Hgt & Hgq & He & pre & Hpre).
      exists t, (mkLexer (opt_list qo) cl' idx pos' [s] cd). split; [exact Hg|]. split; [exact Hgt|].
      rewrite pending_one. change (raws [] ++ String c r ++ s) with (String c r ++ s). rewrite He, !str_app_assoc.
      split; [|reflexivity].
      exists s. repeat split; auto.
      * rewrite pending_one. rewrite He, !str_app_assoc in Hp. exact (plain_text_app_r _ _ Hp).
      * rewrite Hpre in Hlc. exact (last_suffix _ _ _ Hlc).
  - rewrite GetNextToken_aux_cons. exists t, (mkLexer q cl idx pos [s] cd). split; [reflexivity|].
    cbn [forallb] in Hq. apply andb_true_iff in Hq. destruct Hq as [Hq1 Hq2].
    rewrite pending_one, raws_cons, !str_app_assoc. split; [exact Hq1|]. split; [|reflexivity].
    exists s. repeat split; auto. rewrite pending_one. rewrite raws_cons, !str_app_assoc in Hp.
    exact (plain_text_app_r _ _ Hp).
Qed.

(** ** [Process] on plain text *)

Lemma process_benign : forall ab fuel ps t p, benign t = true -> mConditionalBlocksStack p = [] ->
  mSymTable p = [mkMacro "__LINE__" [] []] -> process_token ab fuel ps t p = Ok (ps ++ mRawView t) p.
Proof.
  intros ab fuel ps [ty raw li lp] p Hb Hs Ht. unfold benign in Hb. cbn [mType mRawView] in *.
  destruct ty; try discriminate Hb;
  unfold process_token; cbn [mType mRawView];
  unfold appendString, _shouldTokenBeSkipped, bind, get, ret; cbv beta iota;
  rewrite ?Hs, ?Ht; try reflexivity.
  unfold find_macro. cbn [find mName]. rewrite String.eqb_sym.
  destruct (String.eqb raw "__LINE__"); [discriminate Hb|]. rewrite Hs. reflexivity.
Qed.

Lemma loop_step : forall ab f ps p t l' ps' p1,
  HasNextToken (mpLexer p) = true -> GetNextToken (mpLexer p) = Ok t l' ->
  process_token ab (S f) ps t (set_lexer l' p) = Ok ps' p1 ->
  Process_loop ab (S f) ps p =
  (if HasNextToken (mpLexer p1) then Process_loop ab f ps' p1
   else Process_loop ab f ps' (set_lexer (PopStream (mpLexer p1)) p1)).
Proof.
  intros ab f ps p t l' ps' p1 Hh Hg Hp. cbn [Process_loop].
  unfold bind at 1, hasNextToken. rewrite Hh. cbn [negb].
  unfold bind at 1, nextToken, liftL. rewrite Hg.
  unfold bind at 1. rewrite Hp.
  unfold bind at 1. unfold bind, ret, liftL, modify.
  destruct (HasNextToken (mpLexer p1)); reflexivity.
Qed.

Lemma loop_done : forall ab f ps p, HasNextToken (mpLexer p) = false -> Process_loop ab (S f) ps p = Ok ps p.
Proof.
  intros ab f ps p Hh. cbn [Process_loop]. unfold bind, hasNextToken. rewrite Hh. reflexivity.
Qed.

Lemma hasnext_false_pending : forall l, lex_inv l -> HasNextToken l = false -> pending l = EmptyString.
Proof.
  intros [q cl idx pos ss cd] (s & Hss & _) Hh. cbn [mStreamsContext] in Hss. subst ss.
  unfold HasNextToken in Hh. cbn [mStreamsContext mCurrLine mTokensQueue] in Hh.
  rewrite pending_one.
  destruct s; [|discriminate Hh]. destruct cl; [|discriminate Hh]. destruct q; [reflexivity|discriminate Hh].
Qed.

Lemma hasnext_pop : forall l, lex_inv l -> HasNextToken l = false -> HasNextToken (PopStream l) = false.
Proof.
  intros [q cl idx pos ss cd] (s & Hss & _) Hh. cbn [mStreamsContext] in Hss. subst ss.
  unfold HasNextToken in *. cbn in *. apply orb_false_iff in Hh. destruct Hh as [Hh1 Hh2].
  apply orb_false_iff in Hh1. destruct Hh1 as [_ Hh3]. rewrite Hh2, Hh3. reflexivity.
Qed.

Lemma str_length_app : forall a b, String.length (a ++ b) = String.length a + String.length b.
Proof. induction a as [|c a IH]; intros b; cbn; [reflexivity|now rewrite IH]. Qed.

Lemma loop_plain : forall n ab fuel ps p, pp_inv p -> String.length (pending (mpLexer p)) <= n -> n < fuel ->
  exists p', Process_loop ab fuel ps p = Ok (ps ++ pending (mpLexer p)) p'.
Proof.
  induction n as [|n IH]; intros ab fuel ps p (Hl & Hs & Ht) Hlen Hf;
  (destruct fuel as [|f]; [lia|]);
  (destruct (HasNextToken (mpLexer p)) eqn:Hh;
   [|exists p; rewrite loop_done by exact Hh; rewrite hasnext_false_pending by assumption;
     now rewrite str_app_nil_r]);
  destruct (gnt_step _ Hl Hh) as (t & l' & Hg & Hgt & Hl' & He);
  unfold good_tok in Hgt; apply andb_true_iff in Hgt; destruct Hgt as [Hb Hne];
  assert (Hlt : String.length (pending l') < String.length (pending (mpLexer p)))
    by (rewrite He, str_length_app; destruct (mRawView t); [discriminate Hne|cbn; lia]).
  - lia.
  - rewrite (loop_step ab f ps p t l' (ps ++ mRawView t) (set_lexer l' p) Hh Hg)
      by (apply process_benign; assumption).
    cbn [mpLexer set_lexer].
    destruct (HasNextToken l') eqn:Hh'.
    + destruct (IH ab f (ps ++ mRawView t) (set_lexer l' p)) as [p' Hp'].
      * split; [exact Hl'|split; assumption].
      * cbn [mpLexer set_lexer]. lia.
      * lia.
      * exists p'. rewrite Hp'. cbn [mpLexer set_lexer]. rewrite He, str_app_assoc. reflexivity.
    + destruct f as [|f]; [lia|].
      exists (set_lexer (PopStream l') (set_lexer l' p)).
      rewrite loop_done by (cbn [mpLexer set_lexer]; exact (hasnext_pop l' Hl' Hh')).
      rewrite He, (hasnext_false_pending l' Hl' Hh'), str_app_nil_r. reflexivity.
Qed.


(** Claim C8 (amended): [Process] returns its input unchanged when the
    input is plain text: printable ASCII and newlines, without [#] or
    backslash, without two consecutive spaces (the lexer collapses them),
    without [//] or [/*], without [__LINE__], without a run of 256 digits,
    and not ending in the character [0]; the fuel must exceed its length. *)
Lemma c8_plain_input_unchanged : forall ab fuel x, plain_input x = true -> String.length x < fuel ->
  out (run_plain ab fuel x) = Some x.
Proof.
  intros ab fuel x Hx Hf. unfold plain_input in Hx. apply andb_true_iff in Hx. destruct Hx as [Hp Hl].
  unfold run_plain, run, Process, Preprocessor_new, Lexer_new.
  destruct (loop_plain (String.length x) ab fuel EmptyString
    (mkPreprocessor (mkLexer [] EmptyString 0 0 [x] []) [] None [mkMacro "__LINE__" [] []] [] [] [] false))
    as [p' Hp'].
  - split; [|split; reflexivity]. exists x. cbn [mStreamsContext mTokensQueue mCurrLine mpLexer].
    rewrite pending_one. split; [reflexivity|]. split; [reflexivity|]. split; [exact Hp|].
    split; [discriminate|]. intros E. rewrite E in Hl. discriminate Hl.
  - cbn [mpLexer]. rewrite pending_one. apply Nat.le_refl.
  - exact Hf.
  - rewrite Hp'. cbn [mpLexer]. rewrite pending_one. reflexivity.
Qed.


Lemma c8_plain_input_unchanged_witness : plain_input "a b" = true /\ String.length "a b" < 10 /\
  out (run_plain true 10 "a b") = Some "a b".
Proof. split; [reflexivity|]. split; [cbn; lia|]. apply c8_plain_input_unchanged; [reflexivity|cbn; lia]. Defined.

(** Counterexample to claim C8 as stated: two spaces in a directive-free,
    macro-free input are collapsed into one. *)
Lemma c8_two_spaces_counterexample : out (run_plain true 50 src_two_spaces) = Some "a b" /\ src_two_spaces <> "a b".
Proof. split; [vm_compute; reflexivity|discriminate]. Qed.

(** ** Steps that only read the lexer *)

Lemma keeps_ret : forall A (a : A), keeps (ret a).
Proof. intros A a p b p' H. unfold ret in H. injection H as _ <-. auto. Qed.

Lemma keeps_fail : forall A f, keeps (A := A) (fail f).
Proof. intros A f p b p' H. discriminate H. Qed.

Lemma keeps_bind : forall A B (m : PM A) (k : A -> PM B), keeps m -> (forall a, keeps (k a)) -> keeps (bind m k).
Proof.
  intros A B m k Hm Hk p b p' H. unfold bind in H. destruct (m p) as [a p1|f] eqn:E; [|discriminate H].
  destruct (Hm _ _ _ E) as (H1 & H2 & H3). destruct (Hk a _ _ _ H) as (H4 & H5 & H6).
  repeat split; congruence.
Qed.

Lemma keeps_liftL : forall A (m : M Lexer A), keeps (liftL m).
Proof.
  intros A m p a p' H. unfold liftL in H. destruct (m (mpLexer p)); [|discriminate H].
  injection H as _ <-. auto.
Qed.

Lemma keeps_nextToken : keeps nextToken.
Proof. apply keeps_liftL. Qed.

Lemma keeps_onError : forall t, keeps (onError t).
Proof. intros t p a p' H. unfold onError in H. injection H as _ <-. auto. Qed.

Lemma keeps_expect : forall a b, keeps (_expect a b).
Proof. intros a b. unfold _expect. destruct (ttype_eqb a b); [apply keeps_ret|apply keeps_onError]. Qed.

Create HintDb keeps_db.
#[local] Hint Resolve keeps_ret keeps_fail keeps_bind keeps_nextToken keeps_onError keeps_expect keeps_liftL : keeps_db.


Lemma keeps_skip_spaces : forall fuel, keeps (skip_spaces fuel).
Proof.
  induction fuel as [|f IH]; cbn [skip_spaces]; [apply keeps_fail|].
  apply keeps_bind; [apply keeps_nextToken|]. intros t. destruct (ttype_eqb (mType t) SPACE); auto with keeps_db.
Qed.

Lemma keeps_skip_newlines : forall fuel, keeps (skip_newlines fuel).
Proof.
  induction fuel as [|f IH]; cbn [skip_newlines]; [apply keeps_fail|].
  apply keeps_bind; [apply keeps_nextToken|]. intros t. destruct (ttype_eqb (mType t) NEWLINE); auto with keeps_db.
Qed.

Lemma keeps_read_until_newline : forall fuel acc, keeps (read_until_newline fuel acc).
Proof.
  induction fuel as [|f IH]; intros acc; cbn [read_until_newline]; [apply keeps_fail|].
  apply keeps_bind; [apply keeps_nextToken|]. intros t. destruct (ttype_eqb (mType t) NEWLINE); auto with keeps_db.
Qed.

Lemma keeps_read_include_path : forall fuel path, keeps (read_include_path fuel path).
Proof.
  induction fuel as [|f IH]; intros path; cbn [read_include_path]; [apply keeps_fail|].
  apply keeps_bind; [apply keeps_nextToken|]. intros t.
  destruct (ttype_eqb (mType t) QUOTES || ttype_eqb (mType t) GREATER); [apply keeps_ret|].
  destruct (ttype_eqb (mType t) NEWLINE); [apply keeps_bind; auto with keeps_db|apply IH].
Qed.

#[local] Hint Resolve keeps_skip_spaces keeps_skip_newlines keeps_read_until_newline keeps_read_include_path : keeps_db.

Lemma keeps_include_directive : forall fuel, keeps (include_directive fuel).
Proof.
  intros fuel. unfold include_directive. apply keeps_bind; [auto with keeps_db|]. intros t.
  destruct (_ && _); repeat (apply keeps_bind; [eauto with keeps_db|intro]); eauto with keeps_db.
Qed.

Lemma bind_ok : forall S A B (m : M S A) (k : A -> M S B) p b p',
  bind m k p = Ok b p' -> exists a p1, m p = Ok a p1 /\ k a p1 = Ok b p'.
Proof.
  intros S A B m k p b p' H. unfold bind in H. destruct (m p) as [a p1|f]; [|discriminate H]. eauto.
Qed.

(** ** Conditional blocks *)

Lemma bind_ok_l : forall S A B (m : M S A) (k : A -> M S B) p a p1,
  m p = Ok a p1 -> bind m k p = k a p1.
Proof. intros S A B m k p a p1 H. unfold bind. rewrite H. reflexivity. Qed.

Lemma nextToken_queue : forall t q p, mTokensQueue (mpLexer p) = t :: q ->
  nextToken p = Ok t (set_lexer (set_queue q (mpLexer p)) p).
Proof.
  intros t q p H. unfold nextToken, liftL, GetNextToken.
  destruct (List.length (mStreamsContext (mpLexer p))); cbn [GetNextToken_aux]; rewrite H; reflexivity.
Qed.

Definition no_newline (toks : list TToken) : bool :=
  forallb (fun t => negb (ttype_eqb (mType t) NEWLINE)) toks.

Lemma read_until_newline_queue : forall toks fuel acc nlt q p,
  no_newline toks = true -> mType nlt = NEWLINE -> List.length toks < fuel ->
  mTokensQueue (mpLexer p) = app toks (nlt :: q) ->
  read_until_newline fuel acc p = Ok (app acc toks, nlt) (set_lexer (set_queue q (mpLexer p)) p).
Proof.
  induction toks as [|t toks IH]; intros fuel acc nlt q p Hn Hnl Hf Hq;
    (destruct fuel as [|f]; [cbn in Hf; lia|]); cbn [read_until_newline].
  - rewrite (bind_ok_l _ _ _ _ _ _ _ _ (nextToken_queue _ _ _ Hq)). rewrite Hnl. cbn. rewrite app_nil_r. reflexivity.
  - rewrite (bind_ok_l _ _ _ _ _ _ _ _ (nextToken_queue _ _ _ Hq)).
    cbn [no_newline forallb] in Hn. apply andb_prop in Hn as [Ht Hn].
    destruct (ttype_eqb (mType t) NEWLINE); [discriminate Ht|].
    rewrite (IH f (app acc [t]) nlt q); [|exact Hn|exact Hnl|cbn in Hf; lia|reflexivity].
    rewrite <- app_assoc. reflexivity.
Qed.

(** the line read by [#if] and [#elif]: a space, the expression tokens and
    the newline *)
Lemma expression_line : forall fuel p sp toks nlt q,
  mType sp = SPACE -> no_newline toks = true -> mType nlt = NEWLINE -> List.length toks < fuel ->
  mTokensQueue (mpLexer p) = sp :: app toks (nlt :: q) ->
  (currToken <- nextToken ;;
   _expect SPACE (mType currToken) ;;;
   r <- read_until_newline fuel [] ;;
   let (expressionTokens, currToken) := r in
   _expect NEWLINE (mType currToken) ;;;
   v <- _evaluateExpression fuel expressionTokens ;;
   ret (mkIfEntry (v =? 0)%Z false)) p
  = match evaluate_tokens (mSymTable p) fuel toks with
    | Ok v _ => Ok (mkIfEntry (v =? 0)%Z false) (set_lexer (set_queue q (mpLexer p)) p)
    | Fault f => Fault f
    end.
Proof.
  intros fuel p sp toks nlt q Hsp Hn Hnl Hf Hq.
  rewrite (bind_ok_l _ _ _ _ _ _ _ _ (nextToken_queue _ _ _ Hq)). cbv beta.
  unfold _expect at 1. rewrite Hsp. cbn [ttype_eqb E_TOKEN_TYPE_beq]. unfold ret at 1. rewrite bind_ok_l with (a := tt) (p1 := set_lexer (set_queue (app toks (nlt :: q)) (mpLexer p)) p) by reflexivity.
  rewrite (bind_ok_l _ _ _ _ _ _ _ _ (read_until_newline_queue toks fuel [] nlt q (set_lexer (set_queue (app toks (nlt :: q)) (mpLexer p)) p) Hn Hnl Hf eq_refl)).
  cbv beta iota. unfold _expect. rewrite Hnl. cbn [ttype_eqb E_TOKEN_TYPE_beq].
  unfold bind at 1, ret at 1. unfold bind, _evaluateExpression. cbn [mSymTable set_lexer].
  change (app [] toks) with toks. destruct (evaluate_tokens (mSymTable p) fuel toks); reflexivity.
Qed.





(** ** The expression evaluator *)

(** [evalPrimary] on an identifier followed by an opening bracket calls the
    stub [evalCall], which returns 0 and consumes nothing *)
Lemma eval_call_zero : forall tbl fuel x raw li lp li' lp' rest,
  evaluate_tokens tbl (S fuel) (mkToken IDENTIFIER x li lp :: mkToken OPEN_BRACKET raw li' lp' :: rest)
    = Ok 0%Z (mkToken IDENTIFIER x li lp :: mkToken OPEN_BRACKET raw li' lp' :: app rest [mEOFToken]).
Proof. intros. reflexivity. Qed.

(** Claim C3 (code bug): [#if defined(X)] pushes a skipped entry even when
    [X] is in the symbol table.  The identifier [defined] followed by an
    opening bracket is taken as a macro call, and the call evaluator is a
    stub returning 0, so [defined(X)] evaluates to 0 instead of 1. *)
Lemma c3_defined_macro_if_skipped : forall fuel p sp t1 t2 t3 t4 nlt q,
  4 < fuel -> mType sp = SPACE -> mType nlt = NEWLINE ->
  mType t1 = IDENTIFIER -> mRawView t1 = "defined" -> mType t2 = OPEN_BRACKET ->
  mType t3 = IDENTIFIER -> is_defined (mRawView t3) (mSymTable p) = true -> mType t4 = CLOSE_BRACKET ->
  mTokensQueue (mpLexer p) = sp :: t1 :: t2 :: t3 :: t4 :: nlt :: q ->
  _processIfConditional fuel p = Ok (mkIfEntry true false) (set_lexer (set_queue q (mpLexer p)) p).
Proof.
  intros fuel p sp t1 t2 t3 t4 nlt q Hf Hsp Hnl H1 Hd H2 H3 Hx H4 Hq.
  unfold _processIfConditional.
  rewrite (expression_line fuel p sp [t1; t2; t3; t4] nlt q Hsp); [| | exact Hnl | cbn; lia | exact Hq].
  - destruct fuel as [|f]; [lia|]. destruct t1, t2. cbn in H1, H2. subst. rewrite eval_call_zero. reflexivity.
  - cbn. rewrite H1, H2, H3, H4. reflexivity.
Qed.

Definition defined_line_state : Preprocessor :=
  set_lexer (set_queue [mkToken SPACE " " 0 0; mkToken IDENTIFIER "defined" 0 0; mkToken OPEN_BRACKET "(" 0 0;
                        mkToken IDENTIFIER "X" 0 0; mkToken CLOSE_BRACKET ")" 0 0; mkToken NEWLINE nl 0 0]
                       (Lexer_new EmptyString []))
            (set_symtable [mkMacro "__LINE__" [] []; mkMacro "X" [] [mkToken NUMBER "1" 0 0]]
               (Preprocessor_new (Lexer_new EmptyString []) None [])).

Lemma c3_defined_macro_if_skipped_witness :
  is_defined "X" (mSymTable defined_line_state) = true /\
  _processIfConditional 10 defined_line_state
    = Ok (mkIfEntry true false) (set_lexer (set_queue [] (mpLexer defined_line_state)) defined_line_state).
Proof.
  split; [reflexivity|].
  apply (c3_defined_macro_if_skipped 10 defined_line_state (mkToken SPACE " " 0 0)
           (mkToken IDENTIFIER "defined" 0 0) (mkToken OPEN_BRACKET "(" 0 0)
           (mkToken IDENTIFIER "X" 0 0) (mkToken CLOSE_BRACKET ")" 0 0) (mkToken NEWLINE nl 0 0) []);
    try reflexivity; lia.
Defined.

(** The same with [Process]: with [X] defined, [#if defined(X)] selects the
    [#else] branch. *)
Lemma defined_call_selects_else :
  out (run_plain true 50 src_defined_call) = Some (nl ++ "no" ++ nl).
Proof. vm_compute. reflexivity. Qed.

(** Claim C4 (code bug): a division [n/...] whose left operand is a number
    has undefined behaviour.  The loop of [evalMultiplication] never
    consumes the [/] token, so its right operand is the primary [/], which
    evaluates to 0, and the C++ [int] division by 0 is undefined; it is
    never the value 0 the specification promises. *)
Lemma c4_division_undefined : forall tbl fuel n d li lp r li' lp' rest, stoi n = Some d ->
  evaluate_tokens tbl (S fuel) (mkToken NUMBER n li lp :: mkToken SLASH r li' lp' :: rest) = Fault UndefinedBehaviour.
Proof.
  intros tbl fuel n d li lp r li' lp' rest H.
  unfold evaluate_tokens, evalOrExpr, evalAndExpr, evalEquality, evalComparison, evalAddition,
    evalMultiplication, evalUnary, evalPrimary, bind, front, erase_first, ret, get.
  cbn -[stoi]. rewrite H. reflexivity.
Qed.

Lemma c4_division_undefined_witness : stoi "1" = Some 1%Z /\
  evaluate_tokens [] 5 [mkToken NUMBER "1" 1 4; mkToken SLASH "/" 1 5; mkToken NUMBER "0" 1 6] = Fault UndefinedBehaviour.
Proof.
  split; [reflexivity|].
  apply (c4_division_undefined [] 4 "1" 1%Z 1 4 "/" 1 5 [mkToken NUMBER "0" 1 6]). reflexivity.
Defined.

(** the whole [#if 1/0] directive has undefined behaviour *)
Lemma division_directive_undefined : run_plain true 50 src_division = Fault UndefinedBehaviour.
Proof. vm_compute. reflexivity. Qed.

(** ** [#include] *)

(** Claim C7 (code bug): an [#include] met while the current conditional
    block is skipped is still carried out: the callback is called with the
    path, and the stream it returns is pushed onto the lexer; the stack of
    conditional blocks is left as it was. *)
Lemma c7_inactive_include_resolved : forall ab fuel p p1 e r path sys cb s,
  mConditionalBlocksStack p = e :: r -> mShouldBeSkipped e = true -> mOnIncludeCallback p = Some cb ->
  include_directive fuel p = Ok (Some (path, sys)) p1 -> cb path sys = Some s ->
  _processInclusion ab fuel p = Ok tt (set_lexer (PushStream s (mpLexer p1)) p1)
  /\ mConditionalBlocksStack p1 = e :: r.
Proof.
  intros ab fuel p p1 e r path sys cb s Hst Hsk Hcb Hd Hs.
  destruct (keeps_include_directive _ _ _ _ Hd) as (K1 & _ & K3).
  split; [|congruence].
  unfold _processInclusion, bind at 1. rewrite Hd.
  unfold include_resolve, bind, get. rewrite K1, Hcb, Hs. reflexivity.
Qed.

Lemma c7_inactive_include_resolved_witness :
  _processInclusion true 10 pp_at_inactive_include
    = Ok tt (set_lexer (PushStream ("#endif" ++ nl ++ "leak" ++ nl) (mpLexer pp_after_include_path)) pp_after_include_path)
  /\ mConditionalBlocksStack pp_after_include_path = [mkIfEntry true false].
Proof.
  apply (c7_inactive_include_resolved true 10 pp_at_inactive_include pp_after_include_path
    (mkIfEntry true false) [] "a" true only_a ("#endif" ++ nl ++ "leak" ++ nl));
  [reflexivity|reflexivity|reflexivity|vm_compute; reflexivity|reflexivity].
Defined.

(** the included file closes the inactive block and its text is emitted *)
Lemma inactive_include_leaks :
  out (run true 50 src_inactive_include include_only_a) = Some (nl ++ "leak" ++ nl ++ nl).
Proof. vm_compute. reflexivity. Qed.

(** Claim C9 (amended): when the include callback returns no stream,
    [TCPP_ASSERT(false)] is reached.  With assertions enabled the
    preprocessor aborts; with assertions disabled ([NDEBUG]) the inclusion
    fails silently: the state is left unchanged and processing goes on. *)
Lemma c9_missing_include_asserts : forall path sys p cb, mOnIncludeCallback p = Some cb -> cb path sys = None ->
  include_resolve true path sys p = Fault AssertionFailed /\ include_resolve false path sys p = Ok tt p.
Proof.
  intros path sys p cb Hcb Hn. unfold include_resolve, bind, get. rewrite Hcb, Hn. split; reflexivity.
Qed.

Lemma c9_missing_include_asserts_witness :
  include_resolve true "b" true (Preprocessor_new (Lexer_new EmptyString []) include_only_a []) = Fault AssertionFailed
  /\ include_resolve false "b" true (Preprocessor_new (Lexer_new EmptyString []) include_only_a [])
     = Ok tt (Preprocessor_new (Lexer_new EmptyString []) include_only_a []).
Proof. apply (c9_missing_include_asserts "b" true _ only_a); reflexivity. Defined.

(** Counterexample to claim C9 as stated: with assertions enabled, an
    [#include] of a file the callback does not know aborts. *)
Lemma c9_missing_include_counterexample : run true 50 src_missing_include include_only_a = Fault AssertionFailed.
Proof. vm_compute. reflexivity. Qed.

(** with assertions disabled, the text after the directive is processed *)
Lemma missing_include_continues :
  out (run false 50 (src_missing_include ++ "z") include_only_a) = Some "z".
Proof. vm_compute. reflexivity. Qed.

(** ** Macro expansion, stringizing and concatenation *)

Lemma self_loop : forall ab f ps cl idx pos ss cd errs cb tbl stack hs li lp,
  find_macro "A" tbl = Some (mkMacro "A" [] [mkToken IDENTIFIER "A" li lp]) ->
  Process_loop ab f ps (mkPreprocessor (mkLexer [mkToken IDENTIFIER "A" li lp] cl idx pos ss cd)
     errs cb tbl [] stack hs true) = Fault OutOfFuel.
Proof.
  intros until lp. intro Hf. induction f as [|f IH]; [reflexivity|].
  cbn [Process_loop]. unfold bind at 1, hasNextToken. cbn -[Process_loop find_macro HasNextToken].
  rewrite HasNextToken_cons.
  unfold bind, nextToken, liftL, process_token, get, put, modify, ret, hasNextToken, GetNextToken.
  cbn -[Process_loop find_macro HasNextToken GetNextToken_aux].
  rewrite GetNextToken_aux_cons.
  cbn -[Process_loop find_macro HasNextToken]. rewrite Hf.
  cbn -[Process_loop HasNextToken]. unfold AppendFront, set_queue, set_lexer, set_sysinit.
  cbn -[Process_loop HasNextToken]. rewrite HasNextToken_cons. cbn -[Process_loop]. exact IH.
Qed.

(** Claim C5 (code bug): expanding the object-like macro of
    [#define A A] returns its body without a [REJECT_MACRO] sentinel and
    without marking [A] as being expanded, so the [A] of the body is
    expanded again, forever: [Process] runs out of every fuel. *)
Lemma c5_self_macro_diverges : forall ab fuel, run_plain ab fuel src_self_macro = Fault OutOfFuel.
Proof.
  intros ab fuel. destruct (Nat.lt_ge_cases fuel 3) as [H|H].
  - destruct fuel as [|[|[|]]]; try lia; destruct ab; vm_compute; reflexivity.
  - replace fuel with (3 + (fuel - 3)) by lia. generalize (fuel - 3). intro k.
    transitivity (Process_loop ab k EmptyString
      (mkPreprocessor (mkLexer [mkToken IDENTIFIER "A" 1 11] EmptyString 2 13 [EmptyString] []) [] None
         [mkMacro "__LINE__" [] []; mkMacro "A" [] [mkToken IDENTIFIER "A" 1 11]] [] [] [] true)).
    + destruct ab; reflexivity.
    + apply self_loop. reflexivity.
Qed.

(** Claim C6 (code bug): the stringize operator appends the raw text of
    the next token without the double quotes around it. *)
Lemma c6_stringize_unquoted : forall ab fuel, 20 <= fuel -> out (run_plain ab fuel src_stringize) = Some " Text".
Proof.
  intros ab fuel H. replace fuel with (20 + (fuel - 20)) by lia. generalize (fuel - 20). intro k.
  destruct ab; vm_compute; reflexivity.
Qed.

Lemma c6_stringize_unquoted_witness : 20 <= 20 /\ out (run_plain true 20 src_stringize) = Some " Text".
Proof. split; [lia|]. apply c6_stringize_unquoted. lia. Defined.

(** Claim C10 (code bug): an input starting with [##] makes [Process] read
    the last character of the empty output string ([processedStr.back()]),
    which is undefined. *)
Lemma c10_concat_first_undefined : forall ab fuel, run_plain ab (S fuel) src_concat_first = Fault UndefinedBehaviour.
Proof. intros. destruct ab; vm_compute; reflexivity. Qed.

(** ** Nested conditional blocks *)

(** Claim C1 (code bug): a [#if 1] block nested in an inactive [#if 0]
    block is emitted: the entry pushed for the inner block records only its
    own predicate, and [_shouldTokenBeSkipped] looks at the top entry alone. *)
Lemma c1_nested_inactive_emits : forall ab fuel, 40 <= fuel ->
  out (run_plain ab fuel src_nested_inactive) = Some ("y" ++ nl).
Proof.
  intros ab fuel H. replace fuel with (40 + (fuel - 40)) by lia. generalize (fuel - 40). intro k.
  destruct ab; vm_compute; reflexivity.
Qed.

Lemma c1_nested_inactive_emits_witness : 40 <= 40 /\ out (run_plain false 40 src_nested_inactive) = Some ("y" ++ nl).
Proof. split; [lia|]. apply c1_nested_inactive_emits. lia. Defined.

End Tcpp.
